(** * Search extractor: pattern-driven extraction engine

    A shallow embedding of [search-extractor.js] (selector evaluator,
    transform chain, rule evaluator, message assembler, redundancy filter,
    cooldown gate and job entry point), followed by the properties of the
    specification that are stated about it.

    Conventions of the embedding
    - JavaScript values are the inductive type [Value]; objects whose
      iteration order is observable ([Object.entries], payloads) are
      association lists in insertion order, the transient extraction map
      [found] is a finite map.  Property reads are reads of own
      properties, and the keys of the pattern objects are not array
      indices, so that [Object.entries] enumerates them as written.
    - Code that may throw returns [Result]; [Throw] carries the error object.
    - Strings are sequences of code units.  The extractor compares them,
      concatenates them and tests them for emptiness, which does not
      depend on the encoding; [String.prototype.trim] is the platform's.
    - The DOM, the [URL] constructor, [String.prototype.trim] and the
      other collaborators are interfaces: the extractor is parametric in
      them.  The calls of the
      job entry point to its collaborators are recorded as [Event]s; the
      debug logging inside [extractMessages] is left out. *)

From Stdlib Require Import String Ascii List ZArith Bool Lia.
From Stdlib Require Import DecimalString DecimalNat DecimalFacts.
From stdpp Require Import base option list gmap strings.
Import ListNotations.

Set Warnings "-register-all".
Set Default Proof Using "Type*".

Local Open Scope string_scope.
Local Open Scope list_scope.

(** ** JavaScript values *)

Inductive Value : Type :=
| VUndefined
| VNull
| VBool (b : bool)
| VNum (n : Z)
| VStr (s : string)
| VArr (items : list Value)
| VObj (props : list (string * Value)).

(** A JavaScript object with string keys, in insertion order. *)
Abbreviation JsObject A := (list (string * A)).

(** [obj[key]] as an option: [None] when [key] is not an own property. *)
Fixpoint obj_lookup {A} (key : string) (obj : JsObject A) : option A :=
  match obj with
  | [] => None
  | (k, v) :: rest => if String.eqb k key then Some v else obj_lookup key rest
  end.

(** [obj[key]] on an object of values: a missing property reads [undefined]. *)
Definition obj_get (obj : JsObject Value) (key : string) : Value :=
  default VUndefined (obj_lookup key obj).

(** [obj[key] = v]: an existing property keeps its place, a new one is
    appended. *)
Fixpoint obj_set {A} (key : string) (v : A) (obj : JsObject A) : JsObject A :=
  match obj with
  | [] => [(key, v)]
  | (k, w) :: rest =>
      if String.eqb k key then (k, v) :: rest else (k, w) :: obj_set key v rest
  end.

(** [Object.keys(obj)] *)
Definition obj_keys {A} (obj : JsObject A) : list string := map fst obj.

(** The names that every plain object inherits from [Object.prototype]: a
    read [obj[key]] of such a name finds the inherited member when [obj]
    has no own property of that name.  The reads of the embedding are
    reads of own properties; properties whose truth depends on it exclude
    these names. *)
Definition objectPrototypeKeys : list string :=
  ["constructor"; "__proto__"; "hasOwnProperty"; "isPrototypeOf";
   "propertyIsEnumerable"; "toLocaleString"; "toString"; "valueOf";
   "__defineGetter__"; "__defineSetter__"; "__lookupGetter__";
   "__lookupSetter__"].

Definition inherited (key : string) : bool :=
  existsb (String.eqb key) objectPrototypeKeys.

(** [x === undefined || x === null] *)
Definition is_nullish (x : Value) : bool :=
  match x with
  | VUndefined | VNull => true
  | _ => false
  end.

(** [x ?? null] *)
Definition or_null (x : Value) : Value :=
  if is_nullish x then VNull else x.

(** Truthiness of an optional string ([undefined] and [''] are falsy). *)
Definition truthy_string (s : option string) : bool :=
  match s with
  | Some (String _ _) => true
  | _ => false
  end.

(** ** Errors *)

(** An error object: its class name, its message and the
    [isPermanentError] tag the callers look at. *)
Record JsError : Type := mkError {
  err_name : string;
  err_message : string;
  isPermanentError : bool
}.

(** Modelled from the spec: [BadPatternError] of [./errors] (the file is
    not part of the sources).  Malformed patterns raise permanent errors. *)
Definition BadPatternError (msg : string) : JsError :=
  mkError "BadPatternError" msg true.

(** A [TypeError] of the JavaScript runtime. *)
Definition TypeError (msg : string) : JsError :=
  mkError "TypeError" msg false.

(** The double-quote character. *)
Definition dquote : string := String (ascii_of_nat 34) EmptyString.

(** [`${e}`] for an error object. *)
Definition error_to_string (e : JsError) : string :=
  err_name e ++ ": " ++ err_message e.

Inductive Result (A : Type) : Type :=
| Ok (a : A)
| Throw (e : JsError).
Arguments Ok {A} a.
Arguments Throw {A} e.

Definition bind {A B} (r : Result A) (k : A -> Result B) : Result B :=
  match r with
  | Ok a => k a
  | Throw e => Throw e
  end.

Notation "'let*' x := r 'in' k" := (bind r (fun x => k))
  (at level 10, x name, r at level 100, k at level 200).

(** A [for ... of] loop whose body may throw, threading the loop state. *)
Fixpoint forEachM {A St} (body : St -> A -> Result St) (l : list A) (s : St)
  : Result St :=
  match l with
  | [] => Ok s
  | x :: rest => let* s' := body s x in forEachM body rest s'
  end.

(** ** The DOM interface *)

(** What the extractor uses of a parsed document.  Elements are values;
    [remove doc e] is the document after [e.remove()].  A query throws on a
    selector the parser rejects, and [querySelectorAll] may answer with a
    falsy value ([None]), which the source guards against. *)
Class Dom (Elem : Type) : Type := {
  querySelector : Elem -> string -> Result (option Elem);
  querySelectorAll : Elem -> string -> Result (option (list Elem));
  textContent : Elem -> string;
  getAttribute : Elem -> string -> option string;
  remove : Elem -> Elem -> Elem;
  (** [elem.href], the link as resolved by the parser against its own
      base; the extractor never reads it. *)
  href_property : Elem -> string
}.

(** [elem.hasAttribute(attr)] *)
Definition hasAttribute {Elem} `{Dom Elem} (elem : Elem) (attr : string) : bool :=
  match getAttribute elem attr with
  | Some _ => true
  | None => false
  end.

(** Modelled from the spec: the transforms of [./patterns] (the file is
    not part of the sources) are pure functions
    [(value, ...args) => value]. *)
Definition Transform : Type := Value -> list Value -> Value.

(** What the extractor uses of the JavaScript environment and of the
    modules it imports. *)
Class Env : Type := {
  (** [new URL(rawLink, baseURI).href]; the constructor throws on input
      that is not a URL. *)
  URL_href : string -> string -> Result string;
  (** The table of builtin transforms of [./patterns]. *)
  TRANSFORMS : string -> option Transform;
  (** [Math.floor(random() * 10000000)] at the [n]-th draw of [random]. *)
  random10M : nat -> Z;
  (** [s.trim()]: [String.prototype.trim] of the platform, which removes
      the white space and the line terminators of ECMAScript at both
      ends. *)
  String_trim : string -> string
}.

(** ** Patterns *)

(** [{ select, attr, transform }] *)
Record SelectRule : Type := mkSelectRule {
  select : option string;
  attr : string;
  transform : option Value
}.

(** A selector definition: the single rule, and the optional list of
    [firstMatch] alternatives. *)
Record SelectorDef : Type := mkSelectorDef {
  firstMatch : option (list SelectRule);
  single : SelectRule
}.

(** A prune directive [{ first }] or [{ all }]. *)
Module PruneRule.
Record t : Type := mk {
  first : option string;
  all : option string
}.
End PruneRule.

(** [{ prune }] *)
Record Preprocess : Type := mkPreprocess {
  prune : option (list PruneRule.t)
}.

(** An input group [{ first: fields }] or [{ all: fields }]. *)
Record InputGroup : Type := mkInputGroup {
  first : option (JsObject SelectorDef);
  all : option (JsObject SelectorDef)
}.

(** An entry of [schema.fields]; [optional] defaults to [false]. *)
Record OutputField : Type := mkOutputField {
  key : string;
  source : option string;
  requiredKeys : option (list string);
  optional : bool
}.

Record OutputSchema : Type := mkOutputSchema {
  fields : list OutputField;
  omitIfExistsAny : option (list string);
  deduplicateBy : Value
}.

(** The rule of one category. *)
Record Rule : Type := mkRule {
  preprocess : option Preprocess;
  input : option (JsObject InputGroup);
  output : option (JsObject OutputSchema)
}.

(** ** Messages *)

Module Body.
Record t : Type := mk {
  action : string;
  payload : JsObject Value;
  ver : Z;
  anti_duplicates : Z
}.
End Body.

Module Message.
Record t : Type := mk {
  body : Body.t;
  deduplicateBy : Value
}.
End Message.

(** The extraction map [found]: [source -> field -> value-or-array]. *)
Abbreviation Found := (gmap string (gmap string Value)).

(** [found[selector][key] = v] *)
Definition found_set (selector key : string) (v : Value) (found : Found)
  : Found :=
  <[selector := <[key := v]> (default ∅ (found !! selector))]> found.

(** [found[source][key]]; reading a property of [undefined] throws. *)
Definition found_read (found : Found) (source key : string) : Result Value :=
  match found !! source with
  | Some fieldValues => Ok (default VUndefined (fieldValues !! key))
  | None => Throw (TypeError "Cannot read properties of undefined")
  end.

(** [found[selector][key].push(v)] *)
Definition found_push (selector key : string) (v : Value) (found : Found)
  : Result Found :=
  let* arr := found_read found selector key in
  match arr with
  | VArr items => Ok (found_set selector key (VArr (items ++ [v])) found)
  | _ => Throw (TypeError "push is not a function")
  end.

(** [isPresent] of [extractMessages] *)
Definition isPresent (x : Value) : bool :=
  match x with
  | VNull | VUndefined => false
  | VStr s => negb (String.eqb s EmptyString)
  | _ => true
  end.

(** A JavaScript array that may have holes. *)
Abbreviation JsArray A := (list (option A)).

(** [arr[idx] = x]: in range the slot is overwritten, out of range the
    array grows, leaving holes below [idx]. *)
Definition array_set {A} (idx : nat) (x : A) (arr : JsArray A) : JsArray A :=
  if decide (idx < length arr) then <[idx := Some x]> arr
  else arr ++ replicate (idx - length arr) None ++ [Some x].

(** [arr.filter(p)]: holes are skipped. *)
Definition array_filter {A} (p : A -> bool) (arr : JsArray A) : list A :=
  flat_map (fun slot => match slot with
                        | Some x => if p x then [x] else []
                        | None => []
                        end) arr.

(** [arr.forEach((value, idx) => ...)], threading the state the callback
    updates. *)
Fixpoint forEachIdx {A St} (callback : St -> A -> nat -> St) (l : list A)
    (idx : nat) (s : St) : St :=
  match l with
  | [] => s
  | value :: rest => forEachIdx callback rest (S idx) (callback s value idx)
  end.

(** The property name of index [i]: ["0"], ["1"], ... *)
Definition index_key (i : nat) : string :=
  NilZero.string_of_uint (Nat.to_uint i).

(** [{ ...arr }]: the positional object of an array. *)
Definition spread_array (arr : list (JsObject Value)) : Value :=
  VObj (imap (fun i entry => (index_key i, VObj entry)) arr).

(** What the body of the loop over [schema.fields] does to the action. *)
Inductive FieldOutcome : Type :=
| Assigned (payload : JsObject Value)   (* go on with the next field *)
| NextAction.                           (* [continue nextaction] *)

Section Evaluator.

Context {Elem : Type} `{DomOps : Dom Elem} `{EnvOps : Env}.

(** Modelled from the spec: [lookupBuiltinTransform] of [./patterns] (the
    file is not part of the sources).  It answers with the transform of
    that name and raises a permanent error for an unknown name. *)
Definition lookupBuiltinTransform (name : Value) : Result Transform :=
  match name with
  | VStr n =>
      match TRANSFORMS n with
      | Some transform => Ok transform
      | None => Throw (BadPatternError ("Unknown transformation: " ++ n))
      end
  | _ => Throw (BadPatternError "Unknown transformation")
  end.

(** [selector ? item.querySelector(selector) : item] *)
Definition selectElem (item : Elem) (selector : option string)
  : Result (option Elem) :=
  match selector with
  | Some sel => if truthy_string selector then querySelector item sel
                else Ok (Some item)
  | None => Ok (Some item)
  end.

Definition runSelector (item : Elem) (selector : option string)
    (attr : string) (baseURI : string) : Result Value :=
  let* elem := selectElem item selector in
  match elem with
  | Some elem =>
      if String.eqb attr "textContent" then Ok (VStr (textContent elem))
      else if String.eqb attr "href" then
        match getAttribute elem "href" with
        | Some rawLink =>
            if truthy_string (Some rawLink)
            then let* href := URL_href rawLink baseURI in Ok (VStr href)
            else Ok VNull
        | None => Ok VNull
        end
      else if hasAttribute elem attr then
        Ok (match getAttribute elem attr with
            | Some v => VStr v
            | None => VNull
            end)
      else Ok VNull
  | None => Ok VNull
  end.

(** The loop of [runTransforms] over the steps. *)
Fixpoint applySteps (tmpValue : Value) (transformSteps : list Value)
  : Result Value :=
  match transformSteps with
  | [] => Ok tmpValue
  | step :: rest =>
      match step with
      | VArr parts =>
          let name := hd VUndefined parts in
          let args := tl parts in
          let* transform := lookupBuiltinTransform name in
          applySteps (transform tmpValue args) rest
      | _ => Throw (BadPatternError
                      "Single transform definitions must be an array.")
      end
  end.

(** [transformSteps] is [None] when the caller passes [undefined]: the
    default parameter [[]] applies. *)
Definition runTransforms (value : Value) (transformSteps : option Value)
  : Result Value :=
  match default (VArr []) transformSteps with
  | VArr steps =>
      if is_nullish value then Ok VNull
      else let* tmpValue := applySteps value steps in Ok (or_null tmpValue)
  | _ => Throw (BadPatternError
                  "Transform definitions must be an array (of arrays).")
  end.

(** The loop of [findFirstMatch] over the alternatives. *)
Fixpoint firstMatchLoop (rootItem : Elem) (alternatives : list SelectRule)
    (baseURI : string) : Result Value :=
  match alternatives with
  | [] => Ok VNull
  | alt :: rest =>
      let* m := runSelector rootItem (select alt) (attr alt) baseURI in
      let match_ := or_null m in
      if negb (is_nullish match_) then runTransforms match_ (transform alt)
      else firstMatchLoop rootItem rest baseURI
  end.

Definition findFirstMatch (rootItem : Elem) (selectorDef : SelectorDef)
    (baseURI : string) : Result Value :=
  match firstMatch selectorDef with
  | Some alternatives => firstMatchLoop rootItem alternatives baseURI
  | None =>
      let* m := runSelector rootItem (select (single selectorDef))
             (attr (single selectorDef)) baseURI in
      Ok (or_null m)
  end.

(** *** Preprocessor *)

(** One directive of [preprocess.prune]. *)
Definition pruneStep (doc : Elem) (r : PruneRule.t) : Result Elem :=
  if truthy_string (PruneRule.first r) then
    let* elem := querySelector doc (default EmptyString (PruneRule.first r)) in
    Ok (match elem with
        | Some elem => remove doc elem
        | None => doc
        end)
  else if truthy_string (PruneRule.all r) then
    let* elems := querySelectorAll doc (default EmptyString (PruneRule.all r)) in
    Ok (fold_left remove (default [] elems) doc)
  else Throw (BadPatternError ("Bad prune rule (expected " ++ dquote ++ "first" ++ dquote ++
                         " or " ++ dquote ++ "all" ++ dquote ++ ")")).

Definition runPrune (doc : Elem) (pre : option Preprocess) : Result Elem :=
  let rules := default [] (pre ≫= prune) in
  forEachM pruneStep rules doc.

(** *** Rule evaluator *)

(** Body of the loop over the fields of a [first] group. *)
Definition evalFirstField (item : Elem) (baseURI selector : string)
    (found : Found) (entry : string * SelectorDef) : Result Found :=
  let '(key, def) := entry in
  let* value := findFirstMatch item def baseURI in
  let* v := runTransforms value (transform (single def)) in
  Ok (found_set selector key v found).

(** Body of the loop over the root items for one field of an [all] group. *)
Definition evalAllItem (def : SelectorDef) (baseURI selector key : string)
    (found : Found) (rootItem : Elem) : Result Found :=
  let* item := findFirstMatch rootItem def baseURI in
  let* v := runTransforms item (transform (single def)) in
  found_push selector key v found.

(** Body of the loop over the fields of an [all] group. *)
Definition evalAllField (rootItems : list Elem) (baseURI selector : string)
    (found : Found) (entry : string * SelectorDef) : Result Found :=
  let '(key, def) := entry in
  let found := found_set selector key (VArr []) found in
  forEachM (evalAllItem def baseURI selector key) rootItems found.

(** Body of the loop over [Object.entries(input)]. *)
Definition evalGroup (doc : Elem) (baseURI : string) (found : Found)
    (entry : string * InputGroup) : Result Found :=
  let '(selector, selectorDef) := entry in
  let found := <[selector := default ∅ (found !! selector)]> found in
  match first selectorDef with
  | Some fieldDefs =>
      let* item := querySelector doc selector in
      match item with
      | Some item =>
          forEachM (evalFirstField item baseURI selector) fieldDefs found
      | None => Ok found
      end
  | None =>
      match all selectorDef with
      | Some fieldDefs =>
          let* rootItems := querySelectorAll doc selector in
          match rootItems with
          | Some rootItems =>
              forEachM (evalAllField rootItems baseURI selector) fieldDefs found
          | None => Ok found
          end
      | None =>
          Throw (BadPatternError ("Bad selector (expected " ++ dquote ++ "first" ++ dquote ++
                         " or " ++ dquote ++ "all" ++ dquote ++ ")"))
      end
  end.

Definition evalInput (doc : Elem) (baseURI : string)
    (input : JsObject InputGroup) : Result Found :=
  forEachM (evalGroup doc baseURI) input ∅.

(** *** Message assembler *)

(** The context of the meta fields. *)
Definition mkContext (query : Value) (url ctry : string) : JsObject Value :=
  [("q", or_null query); ("qurl", VStr url); ("ctry", VStr ctry)].

(** The callback of [found[source][innerKey].forEach]. *)
Definition mergeValue (innerKey : string)
    (results : JsArray (JsObject Value)) (value : Value) (idx : nat)
  : JsArray (JsObject Value) :=
  let entry := default [] (mjoin (results !! idx)) in
  array_set idx (obj_set innerKey (or_null value) entry) results.

(** Body of the loop over [innerKeys]. *)
Definition mergeColumn (found : Found) (src : string)
    (results : JsArray (JsObject Value)) (innerKey : string)
  : Result (JsArray (JsObject Value)) :=
  let* column := found_read found src innerKey in
  match column with
  | VArr values => Ok (forEachIdx (mergeValue innerKey) values 0 results)
  | _ => Throw (TypeError "forEach is not a function")
  end.

Definition allFieldsPresent (required : list string) (entry : JsObject Value)
  : bool :=
  forallb (fun x => isPresent (obj_get entry x)) required.

(** Body of the loop over [schema.fields]. *)
Definition assembleField (input : JsObject InputGroup) (found : Found)
    (context : JsObject Value) (action : string)
    (payload : JsObject Value) (field : OutputField) : Result FieldOutcome :=
  if truthy_string (source field) then
    let src := default EmptyString (source field) in
    match obj_lookup src input with
    | None =>
        Throw (BadPatternError
                 ("Output rule for action=" ++ action ++
                  " references invalid input source=" ++ src))
    | Some group =>
        match first group with
        | Some _ =>
            (* case 1: single extracted value *)
            let* value := found_read found src (key field) in
            if negb (optional field) && negb (isPresent value)
            then Ok NextAction
            else Ok (Assigned (obj_set (key field) (or_null value) payload))
        | None =>
            match all group with
            | Some fieldDefs =>
                (* case 2: merge the fields of an array of extracted values *)
                let innerKeys := obj_keys fieldDefs in
                let* results := forEachM (mergeColumn found src) innerKeys [] in
                let required := default innerKeys (requiredKeys field) in
                let cleanedResults :=
                  array_filter (allFieldsPresent required) results in
                if (length cleanedResults =? 0)%nat && negb (optional field)
                then Ok NextAction
                else Ok (Assigned (obj_set (key field)
                                     (spread_array cleanedResults) payload))
            | None =>
                Throw (BadPatternError
                         ("Output rule for action=" ++ action ++
                          " does not match input key=" ++ key field))
            end
        end
    end
  else
    (* case 3: special keys of the context *)
    if negb (optional field) && negb (isPresent (obj_get context (key field)))
    then Ok (Assigned payload)
    else Ok (Assigned (obj_set (key field)
                         (or_null (obj_get context (key field))) payload)).

(** The loop over [schema.fields], left early by [continue nextaction]. *)
Fixpoint assembleFields (input : JsObject InputGroup) (found : Found)
    (context : JsObject Value) (action : string)
    (fields : list OutputField) (payload : JsObject Value)
  : Result FieldOutcome :=
  match fields with
  | [] => Ok (Assigned payload)
  | field :: rest =>
      let* outcome := assembleField input found context action payload field in
      match outcome with
      | Assigned payload' =>
          assembleFields input found context action rest payload'
      | NextAction => Ok NextAction
      end
  end.

(** Body of the loop over [Object.entries(output)]; one number is drawn for
    each message, so the draws so far are the messages so far. *)
Definition assembleAction (input : JsObject InputGroup) (found : Found)
    (context : JsObject Value) (messages : list Message.t)
    (entry : string * OutputSchema) : Result (list Message.t) :=
  let '(action, schema) := entry in
  let* outcome := assembleFields input found context action (fields schema) [] in
  match outcome with
  | NextAction => Ok messages
  | Assigned payload =>
      let body := Body.mk action payload 4 (random10M (length messages)) in
      Ok (messages ++ [Message.mk body (deduplicateBy schema)])
  end.

(** *** Redundancy filter *)

(** [omitIfExistsAny] of [output[action]], [[]] by default.  Every message
    carries the key of the output entry it was built from, so the lookup
    finds a schema. *)
Definition omitList (output : JsObject OutputSchema) (action : string)
  : list string :=
  match obj_lookup action output with
  | Some schema => default [] (omitIfExistsAny schema)
  | None => []
  end.

Definition isRedundant (output : JsObject OutputSchema)
    (messages : list Message.t) (msg : Message.t) : bool :=
  existsb (fun action =>
             existsb (fun x => String.eqb (Body.action (Message.body x)) action)
               messages)
    (omitList output (Body.action (Message.body msg))).

Definition filterRedundant (output : JsObject OutputSchema)
    (messages : list Message.t) : list Message.t :=
  List.filter (fun msg => negb (isRedundant output messages msg)) messages.

(** *** extractMessages *)

Definition extractMessages (rules : JsObject Rule) (ctry : string)
    (doc : Elem) (query : Value) (category : string) (url : string)
  : Result (list Message.t) :=
  match obj_lookup category rules with
  | None => Ok []
  | Some r =>
      let baseURI := url in
      let input := default [] (input r) in
      let output := default [] (output r) in
      let* doc := runPrune doc (preprocess r) in
      let* found := evalInput doc baseURI input in
      let context := mkContext query url ctry in
      let* messages := forEachM (assembleAction input found context) output [] in
      Ok (filterRedundant output messages)
  end.

End Evaluator.

(** ** Cooldown gate and job entry point *)

(** [doublefetchRequest] *)
Record Request : Type := mkRequest {
  url : string;
  headers : Value;
  redirect : Value;
  steps : Value
}.

(** The argument of [runJob]. *)
Record JobArgs : Type := mkJobArgs {
  query : string;
  category : string;
  doublefetchRequest : Request
}.

(** The answer of [runJob]: [{ messages, reason }]. *)
Record JobResult : Type := mkJobResult {
  messages : list Message.t;
  reason : option string
}.

(** The collaborators of the job entry point.  [Store] is the state of
    the persisted hashes. *)
Class Collaborators (Elem Store : Type) : Type := {
  (** [sanitizer.checkSuspiciousQuery(query)]: [accept] and [reason], or
      the error it throws *)
  checkSuspiciousQuery : string -> Result (bool * string);
  (** [sanitizer.getSafeCountryCode()] *)
  getSafeCountryCode : string;
  (** [patterns.getRulesSnapshot()] *)
  getRulesSnapshot : JsObject Rule;
  (** [fastHash(text, { truncate })] of [./utils], a pure function *)
  fastHash : string -> bool -> Z;
  (** [timezoneAgnosticDailyExpireAt()] of [./cooldowns], at the time of
      the job *)
  timezoneAgnosticDailyExpireAt : Z;
  (** [anonymousHttpGet(url, { headers, redirect, steps,
      treat429AsPermanentError })] *)
  anonymousHttpGet : Request -> bool -> Result string;
  (** [parseHtml(html)] *)
  parseHtml : string -> Result Elem;
  (** [persistedHashes.add(hash, expireAt)]: its answer, or the error it
      rejects with, and the store after the call *)
  hashesAdd : Z -> Z -> Store -> Result bool * Store;
  (** [persistedHashes.delete(hash)]: the store after the call; a
      rejection is swallowed by the [catch] of the caller *)
  hashesDelete : Z -> Store -> Store
}.

Inductive LogLevel : Type := Debug | Info | Warn.

(** The calls of the job that are visible from outside. *)
Inductive Event : Type :=
| Log (level : LogLevel) (text : string)
| HashAdd (hash expireAt : Z)
| HashDelete (hash : Z)
| HttpGet (request : Request)
| ParseHtml (html : string)
| ExtractMessages.

(** The state a job runs in: the persisted hashes and the calls made so
    far. *)
Record World (Store : Type) : Type := mkWorld {
  persistedHashes : Store;
  events : list Event
}.
Arguments mkWorld {Store} _ _.
Arguments persistedHashes {Store} _.
Arguments events {Store} _.

Definition emit {Store} (e : Event) (w : World Store) : World Store :=
  mkWorld (persistedHashes w) (events w ++ [e]).

(** Modelled from the spec: the store of [persistedHashes] (its module is
    not part of the sources) as a map from the hashes to their expiration;
    [add(hash, expireAt)] answers [true] iff the hash is newly inserted and
    [delete(hash)] removes it. *)
Module HashStore.
Abbreviation t := (gmap Z Z).

Definition add (hash expireAt : Z) (store : t) : bool * t :=
  match store !! hash with
  | Some _ => (false, store)
  | None => (true, <[hash := expireAt]> store)
  end.

Definition delete (hash : Z) (store : t) : t := base.delete hash store.
End HashStore.

Section Job.

Context {Elem Store : Type} `{DomOps : Dom Elem} `{EnvOps : Env}
        `{Collab : Collaborators Elem Store}.

Abbreviation World := (World Store).

Definition doublefetchQueryHash (query category : string) : Z :=
  fastHash ("dfq:" ++ category ++ ":" ++ String_trim query) true.

(** [await this.persistedHashes.add(hash, expireAt)] *)
Definition persistedHashes_add (hash expireAt : Z) (w : World)
  : Result bool * World :=
  let w := emit (HashAdd hash expireAt) w in
  let '(wasAdded, store) := hashesAdd hash expireAt (persistedHashes w) in
  (wasAdded, mkWorld store (events w)).

(** [await this.persistedHashes.delete(hash).catch(() => {})] *)
Definition persistedHashes_delete (hash : Z) (w : World) : World :=
  let w := emit (HashDelete hash) w in
  mkWorld (hashesDelete hash (persistedHashes w)) (events w).

(** [discard] of [runJob] *)
Definition discard (query reason : string) (w : World)
  : Result JobResult * World :=
  (Ok (mkJobResult [] (Some reason)),
   emit (Log Debug ("No messages found for query: " ++ query ++
                    " Reason: " ++ reason)) w).

(** [this.extractMessages({ doc, query, category, doublefetchRequest })]
    on the collaborators of the instance. *)
Definition extractMessagesOf (doc : Elem) (job : JobArgs)
  : Result (list Message.t) :=
  extractMessages getRulesSnapshot getSafeCountryCode doc
    (VStr (query job)) (category job) (url (doublefetchRequest job)).

(** The first [try] block of [runJob]: fetch and parse. *)
Definition fetchDocument (request : Request) (w : World)
  : Result Elem * World :=
  let w := emit (HttpGet request) w in
  match anonymousHttpGet request true with
  | Throw e => (Throw e, w)
  | Ok html =>
      let w := emit (ParseHtml html) w in
      (parseHtml html, w)
  end.

(** The part of [runJob] after the cooldown slot has been taken: the two
    [try] blocks. *)
Definition fetchAndExtract (job : JobArgs) (queryHash : Z) (w : World)
  : Result JobResult * World :=
  match fetchDocument (doublefetchRequest job) w with
  | (Throw e, w) =>
      (* unblock the hash to allow retries later *)
      let w := emit (Log Info ("Failed to fetch query: " ++
                               url (doublefetchRequest job) ++ " " ++
                               error_to_string e)) w in
      let w := persistedHashes_delete queryHash w in
      (Throw e, w)
  | (Ok doc, w) =>
      let w := emit ExtractMessages w in
      match extractMessagesOf doc job with
      | Ok messages =>
          if (length messages =? 0)%nat
          then discard (query job) "No content found." w
          else (Ok (mkJobResult messages None), w)
      | Throw e =>
          let w := emit (Log Warn ("Processing failed: " ++
                                   error_to_string e)) w in
          discard (query job)
            ("Unsupported pattern: " ++ error_to_string e) w
      end
  end.

(** [checkSuspiciousQuery] and [persistedHashes.add] are called outside
    the [try] blocks: what they throw is thrown by [runJob]. *)
Definition runJob (job : JobArgs) (w : World) : Result JobResult * World :=
  match checkSuspiciousQuery (query job) with
  | Throw e => (Throw e, w)
  | Ok queryCheck =>
      if negb (fst queryCheck) then
        discard (query job)
          ("Dropping suspicious query before double-fetch (" ++
           snd queryCheck ++ ")") w
      else
        let queryHash := doublefetchQueryHash (query job) (category job) in
        let expireAt := timezoneAgnosticDailyExpireAt in
        match persistedHashes_add queryHash expireAt w with
        | (Throw e, w) => (Throw e, w)
        | (Ok wasAdded, w) =>
            if negb wasAdded
            then discard (query job) "Query has been recently seen." w
            else fetchAndExtract job queryHash w
        end
  end.

(** The handler registered for ['doublefetch-query']. *)
Definition handleDoublefetchQuery (job : JobArgs) (w : World)
  : Result (list (string * Message.t)) * World :=
  match runJob job w with
  | (Ok result, w) =>
      (Ok (map (fun message => ("send-message", message)) (messages result)), w)
  | (Throw e, w) => (Throw e, w)
  end.

End Job.

(** * Definitions used to state the properties *)

(** [l.map(f)] for an [f] that may throw. *)
Fixpoint mapM {A B} (f : A -> Result B) (l : list A) : Result (list B) :=
  match l with
  | [] => Ok []
  | x :: rest =>
      let* y := f x in
      let* ys := mapM f rest in
      Ok (y :: ys)
  end.

(** [m[k] = v] for every pair of [kvs], in order. *)
Definition insert_all (kvs : list (string * Value)) (m : gmap string Value)
  : gmap string Value :=
  fold_left (fun m kv => <[kv.1 := kv.2]> m) kvs m.

Section Derived.

Context {Elem : Type} `{DomOps : Dom Elem} `{EnvOps : Env}.

(** The two statements the rule evaluator runs for a field definition on
    an item: the selection, then the chain of [def.transform]. *)
Definition evalField (baseURI : string) (def : SelectorDef) (item : Elem)
  : Result Value :=
  let* value := findFirstMatch item def baseURI in
  runTransforms value (transform (single def)).

(** A transform chain as the specification words it: the transforms that
    the steps name, each with the arguments of its step, in the order of
    the steps.  [resolveChain] answers [None] when the definitions are not
    an array of steps [[name, ...args]] whose names are all in the
    registry. *)
Definition resolveStep (step : Value) : option (Transform * list Value) :=
  match step with
  | VArr (VStr name :: args) =>
      match TRANSFORMS name with
      | Some transform => Some (transform, args)
      | None => None
      end
  | _ => None
  end.

Fixpoint resolveSteps (steps : list Value)
  : option (list (Transform * list Value)) :=
  match steps with
  | [] => Some []
  | step :: rest =>
      match resolveStep step, resolveSteps rest with
      | Some transform, Some chain => Some (transform :: chain)
      | _, _ => None
      end
  end.

Definition resolveChain (transformSteps : option Value)
  : option (list (Transform * list Value)) :=
  match default (VArr []) transformSteps with
  | VArr steps => resolveSteps steps
  | _ => None
  end.

(** The transforms of a chain applied one after the other, the first one
    to [value]. *)
Definition applyChain (chain : list (Transform * list Value)) (value : Value)
  : Value :=
  fold_left (fun tmpValue step => step.1 tmpValue step.2) chain value.

(** A chain run on a value: [null] and [undefined] give [null] and no
    transform is applied. *)
Definition runChain (chain : list (Transform * list Value)) (value : Value)
  : Value :=
  if is_nullish value then VNull else or_null (applyChain chain value).

(** The steps name a transform that is not in the registry. *)
Definition isUnknownStep (step : Value) : bool :=
  match step with
  | VArr (VStr name :: _) =>
      match TRANSFORMS name with
      | Some _ => false
      | None => true
      end
  | _ => false
  end.

Definition referencesUnknown (transformSteps : option Value) : bool :=
  match transformSteps with
  | Some (VArr steps) => existsb isUnknownStep steps
  | _ => false
  end.

(** The fields a [first] group stores for its item. *)
Definition firstGroupValues (baseURI : string) (item : Elem)
    (fieldDefs : JsObject SelectorDef) : Result (list (string * Value)) :=
  mapM (fun entry : string * SelectorDef =>
          let* v := evalField baseURI entry.2 item in Ok (entry.1, v))
    fieldDefs.

(** The per-field arrays an [all] group stores for its root items. *)
Definition allGroupValues (baseURI : string) (rootItems : list Elem)
    (fieldDefs : JsObject SelectorDef) : Result (list (string * Value)) :=
  mapM (fun entry : string * SelectorDef =>
          let* vs := mapM (evalField baseURI entry.2) rootItems in
          Ok (entry.1, VArr vs))
    fieldDefs.

(** What one input group adds to its entry [m] of the extraction map. *)
Definition groupValues (doc : Elem) (baseURI selector : string)
    (group : InputGroup) (m : gmap string Value)
  : Result (gmap string Value) :=
  match first group with
  | Some fieldDefs =>
      let* item := querySelector doc selector in
      match item with
      | Some item =>
          let* kvs := firstGroupValues baseURI item fieldDefs in
          Ok (insert_all kvs m)
      | None => Ok m
      end
  | None =>
      match all group with
      | Some fieldDefs =>
          let* rootItems := querySelectorAll doc selector in
          match rootItems with
          | Some rootItems =>
              let* kvs := allGroupValues baseURI rootItems fieldDefs in
              Ok (insert_all kvs m)
          | None => Ok m
          end
      | None =>
          Throw (BadPatternError
                   ("Bad selector (expected " ++ dquote ++ "first" ++ dquote ++
                    " or " ++ dquote ++ "all" ++ dquote ++ ")"))
      end
  end.

(** The rule evaluator reaches field [def] of the input on [item]: the
    groups before its group, the fields before it in the group and, in an
    [all] group, the root items before [item] have been evaluated without
    an error. *)
Definition reachesField (doc : Elem) (baseURI : string)
    (input : JsObject InputGroup) (def : SelectorDef) (item : Elem) : Prop :=
  exists before selector group after found0 fieldsBefore key fieldsAfter found1,
    input = before ++ (selector, group) :: after /\
    forEachM (evalGroup doc baseURI) before ∅ = Ok found0 /\
    ((first group = Some (fieldsBefore ++ (key, def) :: fieldsAfter) /\
      querySelector doc selector = Ok (Some item) /\
      forEachM (evalFirstField item baseURI selector) fieldsBefore
        (<[selector := default ∅ (found0 !! selector)]> found0) = Ok found1)
     \/
     (exists itemsBefore itemsAfter found2,
        first group = None /\
        all group = Some (fieldsBefore ++ (key, def) :: fieldsAfter) /\
        querySelectorAll doc selector
          = Ok (Some (itemsBefore ++ item :: itemsAfter)) /\
        forEachM (evalAllField (itemsBefore ++ item :: itemsAfter)
                    baseURI selector) fieldsBefore
          (<[selector := default ∅ (found0 !! selector)]> found0) = Ok found1 /\
        forEachM (evalAllItem def baseURI selector key) itemsBefore
          (found_set selector key (VArr []) found1) = Ok found2)).

End Derived.

(** The array-of-objects that the spec describes for an [all] input, by
    zipping the arrays [column k] of the fields [k] declared under the
    input: entry [i] has, for each declared field, the [i]-th value of its
    array, [null] in place of [undefined] and [null].  Zipping no array
    gives no entry. *)
Definition zipLength (innerKeys : list string) (column : string -> list Value)
  : nat :=
  match innerKeys with
  | [] => 0
  | k :: _ => length (column k)
  end.

Definition zipEntry (innerKeys : list string) (column : string -> list Value)
    (i : nat) : JsObject Value :=
  map (fun k => (k, or_null (default VUndefined (column k !! i)))) innerKeys.

Definition zipEntries (innerKeys : list string)
    (column : string -> list Value) : list (JsObject Value) :=
  map (zipEntry innerKeys column) (seq 0 (zipLength innerKeys column)).

(** The array-merged field as the spec describes it. *)
Definition arrayMergedField (innerKeys : list string)
    (column : string -> list Value) (field : OutputField)
    (payload : JsObject Value) : FieldOutcome :=
  let required := default innerKeys (requiredKeys field) in
  let entries :=
    List.filter (fun entry => forallb (fun k => isPresent (obj_get entry k))
                                required)
      (zipEntries innerKeys column) in
  match entries with
  | [] => if optional field then Assigned (obj_set (key field) (VObj []) payload)
          else NextAction
  | _ => Assigned (obj_set (key field)
                     (VObj (imap (fun i entry => (index_key i, VObj entry))
                              entries)) payload)
  end.

(** * A concrete DOM and concrete collaborators

    A small document model on which the extractor runs: element trees with
    a node identity, selectors that name a tag (["div"]) or an id
    (["#foo"]), and a resolver for absolute and root-relative links. *)

Module Fixture.

Inductive Node : Type :=
| node (id : nat) (tag : string) (attrs : list (string * string))
       (text : string) (children : list Node).

Definition node_id (n : Node) : nat := let 'node i _ _ _ _ := n in i.
Definition node_tag (n : Node) : string := let 'node _ t _ _ _ := n in t.
Definition node_attrs (n : Node) : list (string * string) :=
  let 'node _ _ a _ _ := n in a.

Fixpoint descendants (n : Node) : list Node :=
  let 'node _ _ _ _ children := n in
  flat_map (fun c => c :: descendants c) children.

Fixpoint text_of (n : Node) : string :=
  let 'node _ _ _ text children := n in
  text ++ String.concat EmptyString (map text_of children).

Definition matches (sel : string) (n : Node) : bool :=
  match sel with
  | String "#" name =>
      match obj_lookup "id" (node_attrs n) with
      | Some i => String.eqb i name
      | None => false
      end
  | _ => String.eqb sel (node_tag n)
  end.

Definition SyntaxError : JsError :=
  mkError "SyntaxError" "not a valid selector" false.

Definition query_all (n : Node) (sel : string) : Result (option (list Node)) :=
  match sel with
  | EmptyString => Throw SyntaxError
  | _ => Ok (Some (List.filter (matches sel) (descendants n)))
  end.

Definition query_first (n : Node) (sel : string) : Result (option Node) :=
  let* found := query_all n sel in
  Ok (head (default [] found)).

Fixpoint remove_id (target : nat) (doc : Node) : Node :=
  let 'node i t a x children := doc in
  node i t a x
    (flat_map (fun c => if (node_id c =? target)%nat then []
                        else [remove_id target c]) children).

Definition remove_node (doc target : Node) : Node :=
  remove_id (node_id target) doc.

#[export] Instance dom : Dom Node := {|
  querySelector := query_first;
  querySelectorAll := query_all;
  textContent := text_of;
  getAttribute n name := obj_lookup name (node_attrs n);
  remove := remove_node;
  href_property n :=
    ("chrome-extension://abcdef/" ++
     default EmptyString (obj_lookup "href" (node_attrs n)))%string
|}.

(** A second parser for the same documents: it resolves links against
    another base of its own. *)
Definition dom2 : Dom Node := {|
  querySelector := query_first;
  querySelectorAll := query_all;
  textContent := text_of;
  getAttribute n name := obj_lookup name (node_attrs n);
  remove := remove_node;
  href_property n :=
    ("about:blank/" ++
     default EmptyString (obj_lookup "href" (node_attrs n)))%string
|}.

(** The origin of an absolute URL: everything before the third [/]. *)
Fixpoint origin_of (slashes : nat) (s : string) : string :=
  match s with
  | EmptyString => EmptyString
  | String c rest =>
      if Ascii.eqb c "/" then
        match slashes with
        | O => EmptyString
        | S k => String c (origin_of k rest)
        end
      else String c (origin_of slashes rest)
  end.

Definition resolve (rawLink baseURI : string) : Result string :=
  if String.prefix "http://" rawLink || String.prefix "https://" rawLink
  then Ok rawLink
  else if String.prefix "/" rawLink
  then Ok (origin_of 2 baseURI ++ rawLink)%string
  else Throw (TypeError "Invalid URL").

(** The [trim] of the fixture, whose strings are ASCII: the ASCII white
    space (tab, line feed, vertical tab, form feed, carriage return,
    space) is removed at both ends. *)
Definition isWhiteSpace (c : ascii) : bool :=
  let n := nat_of_ascii c in
  ((n =? 9) || (n =? 10) || (n =? 11) || (n =? 12) || (n =? 13) ||
   (n =? 32))%nat.

Fixpoint trimStart (s : string) : string :=
  match s with
  | EmptyString => EmptyString
  | String c rest => if isWhiteSpace c then trimStart rest else s
  end.

Definition reverse_string (s : string) : string :=
  string_of_list_ascii (rev (list_ascii_of_string s)).

Definition trimEnd (s : string) : string :=
  reverse_string (trimStart (reverse_string s)).

Definition trim (s : string) : string := trimEnd (trimStart s).

Definition transforms (name : string) : option Transform :=
  if String.eqb name "trim" then
    Some (fun value _ => match value with
                         | VStr s => VStr (trim s)
                         | _ => value
                         end)
  else if String.eqb name "constant" then
    Some (fun _ args => hd VUndefined args)
  else None.

#[export] Instance env : Env := {|
  URL_href := resolve;
  TRANSFORMS := transforms;
  random10M n := (1000 + Z.of_nat n)%Z;
  String_trim := trim
|}.

(** The page
    [<html><body>
       <div id=foo bar='Some text to extract'></div>
       <a id=rellink href='/foo?bar=42'></a>
       <a id=empty href='' title=''></a>
       <li>one</li><li></li><li>three</li>
     </body></html>] *)
Definition fooNode : Node :=
  node 2 "div" [("id", "foo"); ("bar", "Some text to extract")] EmptyString [].

Definition rellinkNode : Node :=
  node 3 "a" [("id", "rellink"); ("href", "/foo?bar=42")] EmptyString [].

Definition emptyNode : Node :=
  node 4 "a" [("id", "empty"); ("href", EmptyString); ("title", EmptyString)]
    EmptyString [].

Definition firstItem : Node := node 5 "li" [] "one" [].

Definition listItems : list Node :=
  [firstItem; node 6 "li" [] EmptyString []; node 7 "li" [] "three" []].

Definition bodyNode : Node :=
  node 1 "body" [] EmptyString (fooNode :: rellinkNode :: emptyNode :: listItems).

Definition page : Node := node 0 "html" [] EmptyString [bodyNode].

Definition pageUrl : string := "http://example.test/x?q=some-query".

Definition plainRule (sel : option string) (attribute : string) : SelectorDef :=
  mkSelectorDef None (mkSelectRule sel attribute None).

Definition fieldOf (k src : string) : OutputField :=
  mkOutputField k (Some src) None false.

Definition contextField (k : string) (opt : bool) : OutputField :=
  mkOutputField k None None opt.

(** The pattern of the test [should extract some dummy test]. *)
Definition dummyRules : JsObject Rule :=
  [("example-test",
    mkRule None
      (Some [("body", mkInputGroup
                 (Some [("textFromDiv", plainRule (Some "#foo") "bar")]) None)])
      (Some [("test-action",
              mkOutputSchema
                [fieldOf "textFromDiv" "body"; contextField "q" false;
                 contextField "qurl" false; contextField "ctry" false]
                None VUndefined)]))].

(** An output whose only action lists itself in [omitIfExistsAny]. *)
Definition selfOmitOutput : JsObject OutputSchema :=
  [("self-action",
    mkOutputSchema [contextField "qurl" false] (Some ["self-action"])
      VUndefined)].

Definition selfOmitRule : Rule := mkRule None None (Some selfOmitOutput).

Definition selfOmitRules : JsObject Rule := [("example-test", selfOmitRule)].

Definition selfMessage : Message.t :=
  Message.mk (Body.mk "self-action" [("qurl", VStr pageUrl)] 4 1000) VUndefined.

(** A [first] group with a field that is the empty string on [page] and a
    field that is missing on it. *)
Definition linkFields : JsObject SelectorDef :=
  [("title", plainRule (Some "#empty") "title");
   ("missing", plainRule (Some "#nowhere") "title")].

Definition linkGroup : InputGroup := mkInputGroup (Some linkFields) None.

Definition linkInput : JsObject InputGroup := [("body", linkGroup)].

Definition optionalTitle : OutputField :=
  mkOutputField "title" (Some "body") None true.

Definition requiredMissing : OutputField := fieldOf "missing" "body".

Definition missingSchema : OutputSchema :=
  mkOutputSchema [contextField "q" false; requiredMissing] None VUndefined.

Definition linkRule : Rule :=
  mkRule None (Some linkInput)
    (Some [("title-action", mkOutputSchema [optionalTitle] None VUndefined);
           ("missing-action", missingSchema)]).

Definition linkRules : JsObject Rule := [("example-test", linkRule)].

Definition titleMessage : Message.t :=
  Message.mk (Body.mk "title-action" [("title", VStr EmptyString)] 4 1000)
    VUndefined.

Definition linkFound : Found :=
  {["body" := {["title" := VStr EmptyString; "missing" := VNull]}]}.

(** An [all] group over the list items of [page]. *)
Definition listFields : JsObject SelectorDef :=
  [("text", plainRule None "textContent"); ("tag", plainRule None "class")].

Definition listGroup : InputGroup := mkInputGroup None (Some listFields).

Definition listInput : JsObject InputGroup := [("li", listGroup)].

Definition listFound : Found :=
  {["li" := {["text" := VArr [VStr "one"; VStr EmptyString; VStr "three"];
              "tag" := VArr [VNull; VNull; VNull]]}]}.

Definition itemsField : OutputField :=
  mkOutputField "items" (Some "li") (Some ["text"]) false.

(** The pattern of the test [should fail with a permanent error if a
    primitive is not supported]. *)
Definition unknownStep : Value := VArr [VStr "thisBuiltinDoesNotExist"].

Definition unknownDef : SelectorDef :=
  mkSelectorDef None
    (mkSelectRule None "textContent" (Some (VArr [unknownStep]))).

Definition unknownGroup : InputGroup :=
  mkInputGroup (Some [("title", unknownDef)]) None.

Definition unknownRule : Rule :=
  mkRule None (Some [("li", unknownGroup)])
    (Some [("test-action",
            mkOutputSchema [fieldOf "extractedText" "li"] None VUndefined)]).

Definition unknownRules : JsObject Rule := [("example-test", unknownRule)].

(** A [firstMatch] definition with a chain of its own: the first
    alternative finds nothing, the second one finds the attribute [bar]
    and replaces it by a padded constant; the chain of the definition
    trims. *)
Definition missingAlternative : SelectRule :=
  mkSelectRule (Some "#nowhere") "bar" None.

Definition paddedAlternative : SelectRule :=
  mkSelectRule (Some "#foo") "bar"
    (Some (VArr [VArr [VStr "constant"; VStr "  padded  "]])).

Definition firstMatchDef : SelectorDef :=
  mkSelectorDef (Some [missingAlternative; paddedAlternative])
    (mkSelectRule None EmptyString (Some (VArr [VArr [VStr "trim"]]))).

Definition firstMatchGroup : InputGroup :=
  mkInputGroup (Some [("text", firstMatchDef)]) None.

Definition firstMatchInput : JsObject InputGroup :=
  [("body", firstMatchGroup)].

Definition firstMatchFound : Found := {["body" := {["text" := VStr "padded"]}]}.

(** A plain definition with a chain of two steps. *)
Definition plainChainDef : SelectorDef :=
  mkSelectorDef None
    (mkSelectRule (Some "#foo") "bar"
       (Some (VArr [VArr [VStr "constant"; VStr "  x "];
                    VArr [VStr "trim"]]))).

(** The unknown primitive in the chain of a [firstMatch] alternative: the
    first alternative finds nothing, the second one finds the text and
    has the chain. *)
Definition unknownAlternative : SelectRule :=
  mkSelectRule None "textContent" (Some (VArr [unknownStep])).

Definition unknownAlternativeDef : SelectorDef :=
  mkSelectorDef (Some [missingAlternative; unknownAlternative])
    (mkSelectRule None EmptyString None).

Definition unknownAlternativeGroup : InputGroup :=
  mkInputGroup (Some [("title", unknownAlternativeDef)]) None.

Definition unknownAlternativeRule : Rule :=
  mkRule None (Some [("li", unknownAlternativeGroup)])
    (Some [("test-action",
            mkOutputSchema [fieldOf "extractedText" "li"] None VUndefined)]).

Definition unknownAlternativeRules : JsObject Rule :=
  [("example-test", unknownAlternativeRule)].

(** Collaborators of a job: the answers of the fetch and of the parser are
    given. *)
Definition collaborators (rules : JsObject Rule) (fetched : Result string)
    (parsed : Result Node) : Collaborators Node HashStore.t := {|
  checkSuspiciousQuery q := Ok (negb (String.eqb q "suspicious"), "blocked");
  getSafeCountryCode := "de";
  getRulesSnapshot := rules;
  fastHash text _ := Z.of_nat (String.length text);
  timezoneAgnosticDailyExpireAt := 86400000;
  anonymousHttpGet _ _ := fetched;
  parseHtml _ := parsed;
  hashesAdd hash expireAt store :=
    let '(wasAdded, store) := HashStore.add hash expireAt store in
    (Ok wasAdded, store);
  hashesDelete := HashStore.delete
|}.

Definition job : JobArgs :=
  mkJobArgs " some-query " "example-test"
    (mkRequest pageUrl VUndefined VUndefined VUndefined).

(** The fingerprint of [job]: the length of [dfq:example-test:some-query]. *)
Definition jobHash : Z := 27.

Definition networkError : JsError := mkError "Error" "network down" false.

Definition emptyWorld : World HashStore.t := mkWorld ∅ [].

Definition seenWorld : World HashStore.t :=
  mkWorld {[jobHash := 86400000%Z]} [].

(** The patterns of the tests [should resolve relative links ...] and
    [should omit messages that are marked as being redundant]. *)
Definition rellinkInput : JsObject InputGroup :=
  [("body", mkInputGroup
      (Some [("rellink", plainRule (Some "#rellink") "href")]) None)].

Definition redundantRules : JsObject Rule :=
  [("example-test",
    mkRule None (Some rellinkInput)
      (Some [("test-action",
              mkOutputSchema [fieldOf "rellink" "body"] None VUndefined);
             ("redundant-test-action",
              mkOutputSchema [fieldOf "rellink" "body"]
                (Some ["test-action"]) VUndefined);
             ("non-redundant-test-action",
              mkOutputSchema [fieldOf "rellink" "body"]
                (Some ["some-message-that-does-not-exist"]) VUndefined)]))].

Definition rellinkMessage (action : string) (nonce : Z) : Message.t :=
  Message.mk
    (Body.mk action [("rellink", VStr "http://example.test/foo?bar=42")] 4 nonce)
    VUndefined.

(** A page to prune:
    [<div id=root>1<p>X</p><p>3</p><span>X</span><span>X</span></div>] *)
Definition prunePage : Node :=
  node 0 "html" [] EmptyString
    [node 1 "div" [("id", "root")] "1"
       [node 2 "p" [] "X" []; node 3 "p" [] "3" [];
        node 4 "span" [] "X" []; node 5 "span" [] "X" []]].

Definition pruneRules : JsObject Rule :=
  [("example-test",
    mkRule
      (Some (mkPreprocess
               (Some [PruneRule.mk (Some "p") None;
                      PruneRule.mk None (Some "span")])))
      (Some [("#root", mkInputGroup
                (Some [("extractedText", plainRule None "textContent")]) None)])
      (Some [("test-action",
              mkOutputSchema [fieldOf "extractedText" "#root"] None
                VUndefined)]))].

End Fixture.


(** * Further definitions used to state properties of the extractor *)

Section PlatformErrors.

Context {Elem : Type} `{DomOps : Dom Elem} `{EnvOps : Env}.

(** An error that the platform threw: a DOM query or the [URL]
    constructor. *)
Definition PlatformError (e : JsError) : Prop :=
  (exists item selector, querySelector item selector = Throw e)
  \/ (exists item selector, querySelectorAll item selector = Throw e)
  \/ (exists rawLink baseURI, URL_href rawLink baseURI = Throw e).

End PlatformErrors.

(** An error is classified when it is permanent or thrown by the
    platform. *)
Abbreviation Classified e :=
  (isPermanentError e = true \/ PlatformError e).

(** Further patterns and jobs on the pages of [Fixture]. *)
Module Cases.

Definition padStep : Value := VArr [VStr "constant"; VStr "  x "].

Definition trimStep : Value := VArr [VStr "trim"].

Definition nullStep : Value := VArr [VStr "constant"; VNull].

Definition nowhereDef : SelectorDef :=
  mkSelectorDef (Some [Fixture.missingAlternative])
    (mkSelectRule None EmptyString (Some (VArr [Fixture.unknownStep]))).

(** A pattern whose second prune directive has neither [first] nor
    [all]. *)
Definition emptyDirective : PruneRule.t := PruneRule.mk None None.

Definition badPrune : Preprocess :=
  mkPreprocess (Some [PruneRule.mk (Some "p") None; emptyDirective]).

Definition badPruneRule : Rule := mkRule (Some badPrune) None None.

Definition badPruneRules : JsObject Rule := [("example-test", badPruneRule)].

Definition prunedOnce : Fixture.Node :=
  Fixture.node 0 "html" [] EmptyString
    [Fixture.node 1 "div" [("id", "root")] "1"
       [Fixture.node 3 "p" [] "3" []; Fixture.node 4 "span" [] "X" [];
        Fixture.node 5 "span" [] "X" []]].

(** A pattern whose second input group has neither [first] nor [all]. *)
Definition emptyGroup : InputGroup := mkInputGroup None None.

Definition badInputRule : Rule :=
  mkRule None (Some [("body", Fixture.linkGroup); ("li", emptyGroup)]) None.

Definition badInputRules : JsObject Rule := [("example-test", badInputRule)].

(** A pattern whose second output field names a source that is not an
    input group. *)
Definition strayField : OutputField := Fixture.fieldOf "title" "nowhere".

Definition straySchema : OutputSchema :=
  mkOutputSchema [Fixture.contextField "q" false; strayField] None VUndefined.

Definition strayRule : Rule :=
  mkRule None (Some Fixture.linkInput) (Some [("stray-action", straySchema)]).

Definition strayRules : JsObject Rule := [("example-test", strayRule)].

(** Groups whose root selector finds nothing on the page. *)
Definition nowhereFirst : InputGroup :=
  mkInputGroup
    (Some [("title", Fixture.plainRule None "textContent")]) None.

Definition nowhereAll : InputGroup :=
  mkInputGroup None
    (Some [("title", Fixture.plainRule None "textContent")]).

Definition nowhereFirstInput : JsObject InputGroup := [("table", nowhereFirst)].

Definition nowhereAllInput : JsObject InputGroup := [("table", nowhereAll)].

Definition tableFound : Found := {["table" := ∅]}.

Definition tableAllFound : Found := {["table" := {["title" := VArr []]}]}.

Definition optionalTable : OutputField :=
  mkOutputField "rows" (Some "table") None true.

Definition requiredTable : OutputField :=
  mkOutputField "rows" (Some "table") None false.

(** Jobs: the fetch works and the parser answers with [Fixture.page]; the
    parser throws; the rules know no category. *)
Definition working : Collaborators Fixture.Node HashStore.t :=
  Fixture.collaborators Fixture.dummyRules (Ok "<html>") (Ok Fixture.page).

Definition unparsable : Collaborators Fixture.Node HashStore.t :=
  Fixture.collaborators Fixture.dummyRules (Ok "<html>")
    (Throw Fixture.networkError).

Definition withoutRules : Collaborators Fixture.Node HashStore.t :=
  Fixture.collaborators [] (Ok "<html>") (Ok Fixture.page).

(** The same job on a store whose [add] rejects. *)
Definition storageError : JsError :=
  mkError "Error" "storage unavailable" false.

Definition rejectingStore : Collaborators Fixture.Node HashStore.t := {|
  checkSuspiciousQuery := @checkSuspiciousQuery _ _ working;
  getSafeCountryCode := @getSafeCountryCode _ _ working;
  getRulesSnapshot := @getRulesSnapshot _ _ working;
  fastHash := @fastHash _ _ working;
  timezoneAgnosticDailyExpireAt := @timezoneAgnosticDailyExpireAt _ _ working;
  anonymousHttpGet := @anonymousHttpGet _ _ working;
  parseHtml := @parseHtml _ _ working;
  hashesAdd _ _ store := (Throw storageError, store);
  hashesDelete := @hashesDelete _ _ working
|}.

Definition suspiciousJob : JobArgs :=
  mkJobArgs "suspicious" "example-test"
    (mkRequest Fixture.pageUrl VUndefined VUndefined VUndefined).

Definition dummyMessage : Message.t :=
  Message.mk
    (Body.mk "test-action"
       [("textFromDiv", VStr "Some text to extract");
        ("q", VStr " some-query ");
        ("qurl", VStr "http://example.test/x?q=some-query");
        ("ctry", VStr "de")] 4 1000)
    VUndefined.

Definition fetchedEvents : list Event :=
  [HashAdd Fixture.jobHash 86400000;
   HttpGet (doublefetchRequest Fixture.job); ParseHtml "<html>";
   ExtractMessages].

Definition takenStore : HashStore.t := {[Fixture.jobHash := 86400000%Z]}.

End Cases.

(** * The embedding on the scenarios of the test suite *)

#[local] Existing Instance Fixture.dom.
#[local] Existing Instance Fixture.env.

Example empty_patterns_give_no_message :
  extractMessages [] "--" Fixture.page (VStr "foo") "test-action"
    "http://example.test/x?q=foo" = Ok [].
Proof. reflexivity. Qed.

Example dummy_test_extracts_attribute_and_context :
  extractMessages Fixture.dummyRules "de" Fixture.page (VStr "some-query")
    "example-test" Fixture.pageUrl
  = Ok [Message.mk
          (Body.mk "test-action"
             [("textFromDiv", VStr "Some text to extract");
              ("q", VStr "some-query");
              ("qurl", VStr "http://example.test/x?q=some-query");
              ("ctry", VStr "de")] 4 1000)
          VUndefined].
Proof. reflexivity. Qed.

Example redundant_action_is_omitted :
  extractMessages Fixture.redundantRules "de" Fixture.page (VStr "some-query")
    "example-test" Fixture.pageUrl
  = Ok [Fixture.rellinkMessage "test-action" 1000;
        Fixture.rellinkMessage "non-redundant-test-action" 1002].
Proof. reflexivity. Qed.

Example prune_removes_first_and_all :
  extractMessages Fixture.pruneRules "de" Fixture.prunePage (VStr "some-query")
    "example-test" Fixture.pageUrl
  = Ok [Message.mk
          (Body.mk "test-action" [("extractedText", VStr "13")] 4 1000)
          VUndefined].
Proof. reflexivity. Qed.

(** * Properties *)

(** ** Basic facts about the embedding *)

Lemma bind_Ok {A B} (r : Result A) (k : A -> Result B) (b : B) :
  bind r k = Ok b -> exists a, r = Ok a /\ k a = Ok b.
Proof. destruct r as [a|e]; simpl; [eauto | discriminate]. Qed.

Lemma bind_Throw {A B} (r : Result A) (k : A -> Result B) (e : JsError) :
  bind r k = Throw e -> r = Throw e \/ exists a, r = Ok a /\ k a = Throw e.
Proof. destruct r as [a|e']; simpl; [eauto | intros [= ->]; auto]. Qed.

Lemma forEachM_app {A St} (body : St -> A -> Result St) (l1 l2 : list A)
    (s : St) :
  forEachM body (l1 ++ l2) s = bind (forEachM body l1 s) (forEachM body l2).
Proof.
  revert s. induction l1 as [|x l1 IH]; intros s; simpl; [reflexivity|].
  destruct (body s x) as [s'|e]; simpl; [apply IH | reflexivity].
Qed.

Lemma obj_lookup_set_eq {A} (k : string) (v : A) (obj : JsObject A) :
  obj_lookup k (obj_set k v obj) = Some v.
Proof.
  induction obj as [|[k' w] obj IH]; simpl.
  - now rewrite String.eqb_refl.
  - destruct (String.eqb k' k) eqn:E; simpl; rewrite E; [reflexivity | exact IH].
Qed.

Lemma obj_lookup_set_ne {A} (k k' : string) (v : A) (obj : JsObject A) :
  k <> k' -> obj_lookup k' (obj_set k v obj) = obj_lookup k' obj.
Proof.
  intros Hne. induction obj as [|[k0 w] obj IH]; simpl.
  - destruct (String.eqb k k') eqn:E; [|reflexivity].
    apply String.eqb_eq in E. contradiction.
  - destruct (String.eqb k0 k) eqn:E; simpl.
    + apply String.eqb_eq in E. subst k0.
      destruct (String.eqb k k') eqn:E'; [|reflexivity].
      apply String.eqb_eq in E'. contradiction.
    + destruct (String.eqb k0 k'); [reflexivity | exact IH].
Qed.

Lemma obj_lookup_In {A} (k : string) (v : A) (obj : JsObject A) :
  obj_lookup k obj = Some v -> In (k, v) obj.
Proof.
  induction obj as [|[k' w] obj IH]; simpl; [discriminate|].
  destruct (String.eqb k' k) eqn:E.
  - apply String.eqb_eq in E. intros [= ->]. subst. now left.
  - intros H. right. auto.
Qed.

Lemma In_obj_lookup {A} (k : string) (v : A) (obj : JsObject A) :
  List.NoDup (obj_keys obj) -> In (k, v) obj -> obj_lookup k obj = Some v.
Proof.
  induction obj as [|[k' w] obj IH]; simpl; [contradiction|].
  intros Hnd [Heq|Hin].
  - injection Heq as -> ->. now rewrite String.eqb_refl.
  - inversion Hnd as [|? ? Hnotin Hnd']; subst.
    destruct (String.eqb k' k) eqn:E.
    + apply String.eqb_eq in E. subst k'. exfalso. apply Hnotin.
      unfold obj_keys. apply in_map_iff. now exists (k, v).
    + auto.
Qed.

Lemma or_null_not_nullish (v : Value) : is_nullish v = false -> or_null v = v.
Proof. unfold or_null. now intros ->. Qed.

Lemma or_null_nullish (v : Value) : is_nullish v = true -> or_null v = VNull.
Proof. unfold or_null. now intros ->. Qed.

Lemma isPresent_nullish (v : Value) : is_nullish v = true -> isPresent v = false.
Proof. now destruct v. Qed.

(** ** Selector evaluator *)

(** C1. With [attr = 'href'], [runSelector] answers for the selected
    element with the raw [href] attribute resolved once against [baseURI]
    by the [URL] constructor, and with [null] when the attribute is absent
    or the empty string.  The answer is a function of the raw attribute
    and of [baseURI] only: a second parser that selects an element with
    the same raw attribute gives the same answer, whatever base it
    resolves [elem.href] against. *)
Theorem runSelector_href_resolves_raw_attribute
    {Elem : Type} (D : Dom Elem) (E : Env)
    (item elem : Elem) (selector : option string) (baseURI : string) :
  @selectElem Elem D item selector = Ok (Some elem) ->
  @runSelector Elem D E item selector "href" baseURI =
    match @getAttribute Elem D elem "href" with
    | Some (String c rest) =>
        let* href := URL_href (String c rest) baseURI in Ok (VStr href)
    | Some EmptyString | None => Ok VNull
    end
  /\ forall (D' : Dom Elem) (elem' : Elem),
       @selectElem Elem D' item selector = Ok (Some elem') ->
       @getAttribute Elem D' elem' "href" = @getAttribute Elem D elem "href" ->
       @runSelector Elem D' E item selector "href" baseURI
       = @runSelector Elem D E item selector "href" baseURI.
Proof.
  intros Hsel.
  assert (Hrun : forall (D0 : Dom Elem) (e0 : Elem),
             @selectElem Elem D0 item selector = Ok (Some e0) ->
             @runSelector Elem D0 E item selector "href" baseURI =
               match @getAttribute Elem D0 e0 "href" with
               | Some (String c rest) =>
                   let* href := URL_href (String c rest) baseURI in
                   Ok (VStr href)
               | Some EmptyString | None => Ok VNull
               end).
  { intros D0 e0 H0. unfold runSelector. rewrite H0. simpl.
    destruct (@getAttribute Elem D0 e0 "href") as [[|c rest]|]; reflexivity. }
  split.
  - now apply Hrun.
  - intros D' elem' Hsel' Hattr.
    rewrite (Hrun D' elem' Hsel'), (Hrun D elem Hsel), Hattr. reflexivity.
Qed.


(** ** Rule evaluator: what the loops store in the extraction map *)

Lemma mapM_length {A B} (f : A -> Result B) (l : list A) (ys : list B) :
  mapM f l = Ok ys -> length ys = length l.
Proof.
  revert ys. induction l as [|x l IH]; intros ys; simpl.
  - now intros [= <-].
  - destruct (f x) as [y|e]; simpl; [|discriminate].
    destruct (mapM f l) as [ys'|e]; simpl; [|discriminate].
    intros [= <-]. simpl. f_equal. now apply IH.
Qed.

Lemma mapM_lookup {A B} (f : A -> Result B) (l : list A) (ys : list B)
    (i : nat) (x : A) :
  mapM f l = Ok ys -> l !! i = Some x ->
  exists y, f x = Ok y /\ ys !! i = Some y.
Proof.
  revert ys i. induction l as [|x0 l IH]; intros ys i; simpl.
  - intros _ H. discriminate H.
  - destruct (f x0) as [y0|e] eqn:Hf; simpl; [|discriminate].
    destruct (mapM f l) as [ys'|e]; simpl; [|discriminate].
    intros [= <-]. destruct i as [|i]; simpl.
    + intros [= <-]. eauto.
    + intros Hi. now apply IH.
Qed.

Lemma insert_all_notin (kvs : list (string * Value)) (m : gmap string Value)
    (k : string) :
  ~ In k (map fst kvs) -> insert_all kvs m !! k = m !! k.
Proof.
  unfold insert_all. revert m.
  induction kvs as [|[k0 v0] kvs IH]; intros m Hnotin; simpl; [reflexivity|].
  simpl in Hnotin. rewrite IH by tauto.
  apply lookup_insert_ne. tauto.
Qed.

Lemma insert_all_in (kvs : list (string * Value)) (m : gmap string Value)
    (k : string) :
  In k (map fst kvs) ->
  exists v, In (k, v) kvs /\ insert_all kvs m !! k = Some v.
Proof.
  unfold insert_all. revert m.
  induction kvs as [|[k0 v0] kvs IH]; intros m Hin; simpl in *; [contradiction|].
  destruct (in_dec String.string_dec k (map fst kvs)) as [Hlater|Hlater].
  - destruct (IH (<[k0:=v0]> m) Hlater) as (v & Hv & Hl). eauto.
  - destruct Hin as [->|Hin]; [|contradiction].
    exists v0. split; [now left|].
    fold (insert_all kvs (<[k:=v0]> m)).
    rewrite insert_all_notin by assumption. apply lookup_insert_eq.
Qed.

Lemma NoDup_keys_unique {A} (kvs : list (string * A)) (k : string) (v v' : A) :
  List.NoDup (map fst kvs) -> In (k, v) kvs -> In (k, v') kvs -> v = v'.
Proof.
  induction kvs as [|[k0 v0] kvs IH]; simpl; [contradiction|].
  intros Hnd Hin Hin'.
  inversion Hnd as [|? ? Hnotin Hnd']; subst.
  assert (Hfst : forall w, In (k, w) kvs -> In k (map fst kvs)).
  { intros w Hw. apply in_map_iff. now exists (k, w). }
  destruct Hin as [Heq|Hin], Hin' as [Heq'|Hin'].
  - congruence.
  - injection Heq as -> ->. exfalso. eauto.
  - injection Heq' as -> ->. exfalso. eauto.
  - auto.
Qed.

Lemma insert_all_NoDup (kvs : list (string * Value)) (m : gmap string Value)
    (k : string) (v : Value) :
  List.NoDup (map fst kvs) -> In (k, v) kvs -> insert_all kvs m !! k = Some v.
Proof.
  intros Hnd Hin.
  destruct (insert_all_in kvs m k) as (v' & Hin' & Hl).
  { apply in_map_iff. now exists (k, v). }
  rewrite Hl. f_equal. eapply NoDup_keys_unique; eassumption.
Qed.

Section RuleEvaluator.

Context {Elem : Type} `{DomOps : Dom Elem} `{EnvOps : Env}.

Lemma found_set_entry (selector key : string) (v : Value)
    (m : gmap string Value) (found : Found) :
  found_set selector key v (<[selector := m]> found)
  = <[selector := <[key := v]> m]> found.
Proof.
  unfold found_set. rewrite lookup_insert_eq. simpl.
  apply insert_insert_eq.
Qed.

Lemma evalFirstField_entry (item : Elem) (baseURI selector key : string)
    (def : SelectorDef) (m : gmap string Value) (found : Found) :
  evalFirstField item baseURI selector (<[selector := m]> found) (key, def)
  = let* v := evalField baseURI def item in
    Ok (<[selector := <[key := v]> m]> found).
Proof.
  unfold evalFirstField, evalField.
  destruct (findFirstMatch item def baseURI) as [value|e]; simpl; [|reflexivity].
  destruct (runTransforms value (transform (single def))) as [v|e]; simpl;
    [|reflexivity].
  now rewrite found_set_entry.
Qed.

Lemma first_loop_spec (item : Elem) (baseURI selector : string)
    (fieldDefs : JsObject SelectorDef) (m : gmap string Value) (found : Found) :
  forEachM (evalFirstField item baseURI selector) fieldDefs
    (<[selector := m]> found)
  = let* kvs := firstGroupValues baseURI item fieldDefs in
    Ok (<[selector := insert_all kvs m]> found).
Proof.
  revert m. induction fieldDefs as [|[key def] fieldDefs IH]; intros m.
  - reflexivity.
  - cbn [forEachM]. rewrite evalFirstField_entry.
    unfold firstGroupValues in *. cbn [mapM fst snd].
    destruct (evalField baseURI def item) as [v|e]; simpl; [|reflexivity].
    rewrite IH.
    destruct (mapM _ fieldDefs) as [kvs|e]; reflexivity.
Qed.

Lemma all_items_loop_spec (def : SelectorDef) (baseURI selector key : string)
    (rootItems : list Elem) (acc : list Value) (m : gmap string Value)
    (found : Found) :
  m !! key = Some (VArr acc) ->
  forEachM (evalAllItem def baseURI selector key) rootItems
    (<[selector := m]> found)
  = let* vs := mapM (evalField baseURI def) rootItems in
    Ok (<[selector := <[key := VArr (acc ++ vs)]> m]> found).
Proof.
  revert acc m. induction rootItems as [|rootItem rootItems IH]; intros acc m Hm.
  - simpl. rewrite app_nil_r, (insert_id m key); [reflexivity | assumption].
  - cbn [forEachM mapM]. unfold evalAllItem at 1, evalField at 1.
    destruct (findFirstMatch rootItem def baseURI) as [value|e]; simpl;
      [|reflexivity].
    destruct (runTransforms value (transform (single def))) as [v|e]; simpl;
      [|reflexivity].
    unfold found_push, found_read. rewrite lookup_insert_eq, Hm. simpl.
    rewrite found_set_entry.
    rewrite (IH (acc ++ [v])) by apply lookup_insert_eq.
    destruct (mapM (evalField baseURI def) rootItems) as [vs|e]; simpl;
      [|reflexivity].
    now rewrite insert_insert_eq, <- app_assoc.
Qed.

Lemma all_loop_spec (rootItems : list Elem) (baseURI selector : string)
    (fieldDefs : JsObject SelectorDef) (m : gmap string Value) (found : Found) :
  forEachM (evalAllField rootItems baseURI selector) fieldDefs
    (<[selector := m]> found)
  = let* kvs := allGroupValues baseURI rootItems fieldDefs in
    Ok (<[selector := insert_all kvs m]> found).
Proof.
  revert m. induction fieldDefs as [|[key def] fieldDefs IH]; intros m.
  - reflexivity.
  - cbn [forEachM]. unfold evalAllField at 1.
    rewrite found_set_entry.
    rewrite (all_items_loop_spec def baseURI selector key rootItems [])
      by apply lookup_insert_eq.
    unfold allGroupValues in *. cbn [mapM fst snd].
    destruct (mapM (evalField baseURI def) rootItems) as [vs|e]; simpl;
      [|reflexivity].
    rewrite insert_insert_eq, IH.
    destruct (mapM _ fieldDefs) as [kvs|e]; reflexivity.
Qed.

Lemma evalGroup_spec (doc : Elem) (baseURI selector : string)
    (group : InputGroup) (found : Found) :
  evalGroup doc baseURI found (selector, group)
  = let* m := groupValues doc baseURI selector group
                (default ∅ (found !! selector)) in
    Ok (<[selector := m]> found).
Proof.
  unfold evalGroup, groupValues.
  destruct (first group) as [fieldDefs|].
  - destruct (querySelector doc selector) as [[item|]|e]; simpl; try reflexivity.
    rewrite <- (insert_insert_eq found selector (default ∅ (found !! selector))
                  (default ∅ (found !! selector))) at 1.
    rewrite first_loop_spec.
    destruct (firstGroupValues baseURI item fieldDefs) as [kvs|e]; simpl;
      [|reflexivity].
    now rewrite insert_insert_eq.
  - destruct (all group) as [fieldDefs|]; [|reflexivity].
    destruct (querySelectorAll doc selector) as [[rootItems|]|e]; simpl;
      try reflexivity.
    rewrite <- (insert_insert_eq found selector (default ∅ (found !! selector))
                  (default ∅ (found !! selector))) at 1.
    rewrite all_loop_spec.
    destruct (allGroupValues baseURI rootItems fieldDefs) as [kvs|e]; simpl;
      [|reflexivity].
    now rewrite insert_insert_eq.
Qed.

Lemma evalGroups_frame (doc : Elem) (baseURI : string)
    (input : JsObject InputGroup) (found0 found : Found) (selector : string) :
  forEachM (evalGroup doc baseURI) input found0 = Ok found ->
  ~ In selector (obj_keys input) ->
  found !! selector = found0 !! selector.
Proof.
  revert found0. induction input as [|[sel g] input IH]; intros found0;
    cbn [forEachM].
  - now intros [= <-].
  - rewrite evalGroup_spec.
    destruct (groupValues doc baseURI sel g _) as [m|e]; simpl; [|discriminate].
    intros Hrest Hnotin. rewrite (IH _ Hrest) by tauto.
    apply lookup_insert_ne. tauto.
Qed.

Lemma evalGroups_lookup (doc : Elem) (baseURI : string)
    (input : JsObject InputGroup) (found0 found : Found)
    (selector : string) (group : InputGroup) :
  List.NoDup (obj_keys input) ->
  forEachM (evalGroup doc baseURI) input found0 = Ok found ->
  In (selector, group) input ->
  exists m, groupValues doc baseURI selector group
              (default ∅ (found0 !! selector)) = Ok m
            /\ found !! selector = Some m.
Proof.
  revert found0. induction input as [|[sel g] input IH]; intros found0 Hnd;
    cbn [forEachM]; [contradiction|].
  inversion Hnd as [|? ? Hnotin Hnd']; subst.
  rewrite evalGroup_spec.
  destruct (groupValues doc baseURI sel g _) as [m|e] eqn:Hg; simpl;
    [|discriminate].
  intros Hrest [[= -> ->]|Hin].
  - exists m. split; [assumption|].
    rewrite (evalGroups_frame _ _ _ _ _ _ Hrest Hnotin).
    apply lookup_insert_eq.
  - destruct (IH _ Hnd' Hrest Hin) as (m' & Hm' & Hl).
    exists m'. split; [|assumption].
    rewrite lookup_insert_ne in Hm'; [assumption|].
    intros ->. apply Hnotin. unfold obj_keys. apply in_map_iff.
    now exists (selector, group).
Qed.

Lemma evalInput_lookup (doc : Elem) (baseURI : string)
    (input : JsObject InputGroup) (found : Found)
    (selector : string) (group : InputGroup) :
  List.NoDup (obj_keys input) ->
  evalInput doc baseURI input = Ok found ->
  In (selector, group) input ->
  exists m, groupValues doc baseURI selector group ∅ = Ok m
            /\ found !! selector = Some m.
Proof.
  intros Hnd Hev Hin.
  destruct (evalGroups_lookup _ _ _ _ _ _ _ Hnd Hev Hin) as (m & Hm & Hl).
  rewrite lookup_empty in Hm. eauto.
Qed.

Lemma allGroupValues_keys (baseURI : string) (rootItems : list Elem)
    (fieldDefs : JsObject SelectorDef) (kvs : list (string * Value)) :
  allGroupValues baseURI rootItems fieldDefs = Ok kvs ->
  map fst kvs = obj_keys fieldDefs
  /\ forall k v, In (k, v) kvs ->
       exists def vs, In (k, def) fieldDefs /\ v = VArr vs /\
                      mapM (evalField baseURI def) rootItems = Ok vs.
Proof.
  unfold allGroupValues. revert kvs.
  induction fieldDefs as [|[key def] fieldDefs IH]; intros kvs; simpl.
  - intros [= <-]. split; [reflexivity | contradiction].
  - destruct (mapM (evalField baseURI def) rootItems) as [vs|e] eqn:Hvs; simpl;
      [|discriminate].
    destruct (mapM _ fieldDefs) as [kvs'|e]; simpl; [|discriminate].
    intros [= <-]. destruct (IH kvs' eq_refl) as [Hk Hv].
    split; [simpl; now f_equal|].
    intros k v [[= <- <-]|Hin]; [now eauto 6|].
    destruct (Hv k v Hin) as (d & vs' & ? & ? & ?). eauto 7.
Qed.

Lemma firstGroupValues_keys (baseURI : string) (item : Elem)
    (fieldDefs : JsObject SelectorDef) (kvs : list (string * Value)) :
  firstGroupValues baseURI item fieldDefs = Ok kvs ->
  map fst kvs = obj_keys fieldDefs
  /\ (forall k def, In (k, def) fieldDefs ->
        exists v, evalField baseURI def item = Ok v /\ In (k, v) kvs).
Proof.
  unfold firstGroupValues. revert kvs.
  induction fieldDefs as [|[key def] fieldDefs IH]; intros kvs; simpl.
  - intros [= <-]. split; [reflexivity | contradiction].
  - destruct (evalField baseURI def item) as [v|e] eqn:Hv; simpl;
      [|discriminate].
    destruct (mapM _ fieldDefs) as [kvs'|e]; simpl; [|discriminate].
    intros [= <-]. destruct (IH kvs' eq_refl) as [Hk Hin].
    split; [simpl; now f_equal|].
    intros k d [[= <- <-]|Hd]; [exists v; split; [assumption | now left]|].
    destruct (Hin k d Hd) as (v' & ? & ?). exists v'. split; [assumption | now right].
Qed.

Lemma allGroupValues_In (baseURI : string) (rootItems : list Elem)
    (fieldDefs : JsObject SelectorDef) (kvs : list (string * Value))
    (k : string) (def : SelectorDef) :
  allGroupValues baseURI rootItems fieldDefs = Ok kvs ->
  In (k, def) fieldDefs ->
  exists vs, mapM (evalField baseURI def) rootItems = Ok vs /\ In (k, VArr vs) kvs.
Proof.
  unfold allGroupValues. revert kvs.
  induction fieldDefs as [|[key d] fieldDefs IH]; intros kvs; simpl;
    [contradiction|].
  destruct (mapM (evalField baseURI d) rootItems) as [vs|e] eqn:Hvs; simpl;
    [|discriminate].
  destruct (mapM _ fieldDefs) as [kvs'|e]; simpl; [|discriminate].
  intros [= <-] [[= <- <-]|Hin].
  - exists vs. split; [assumption | now left].
  - destruct (IH kvs' eq_refl Hin) as (vs' & ? & ?).
    exists vs'. split; [assumption | now right].
Qed.

(** C4. After the rule evaluator has run, an [all] group whose root query
    answered with a list has, for each of its declared fields, an array in
    the extraction map, and every value stored for the group is an array
    as long as the list of root matches. *)
Theorem all_group_arrays_have_root_length (doc : Elem) (baseURI : string)
    (input : JsObject InputGroup) (found : Found) (selector : string)
    (group : InputGroup) (fieldDefs : JsObject SelectorDef)
    (rootItems : list Elem) :
  List.NoDup (obj_keys input) ->
  evalInput doc baseURI input = Ok found ->
  In (selector, group) input ->
  first group = None ->
  all group = Some fieldDefs ->
  querySelectorAll doc selector = Ok (Some rootItems) ->
  (forall key, In key (obj_keys fieldDefs) ->
     exists values, found !! selector ≫= (.!! key) = Some (VArr values))
  /\ (forall key v, found !! selector ≫= (.!! key) = Some v ->
        exists values, v = VArr values /\ length values = length rootItems).
Proof.
  intros Hnd Hev Hin Hfirst Hall Hroots.
  destruct (evalInput_lookup _ _ _ _ _ _ Hnd Hev Hin) as (m & Hm & Hl).
  unfold groupValues in Hm. rewrite Hfirst, Hall, Hroots in Hm. simpl in Hm.
  destruct (allGroupValues baseURI rootItems fieldDefs) as [kvs|e] eqn:Hkvs;
    simpl in Hm; [|discriminate].
  injection Hm as <-. rewrite Hl. simpl.
  destruct (allGroupValues_keys _ _ _ _ Hkvs) as [Hkeys Hvals].
  assert (Hstored : forall key v, insert_all kvs ∅ !! key = Some v ->
                      In (key, v) kvs).
  { intros key v Hv.
    destruct (in_dec String.string_dec key (map fst kvs)) as [Hk|Hk].
    - destruct (insert_all_in kvs ∅ key Hk) as (v' & Hin' & Hl').
      congruence.
    - rewrite insert_all_notin, lookup_empty in Hv by assumption. discriminate. }
  split.
  - intros key Hkey. rewrite <- Hkeys in Hkey.
    destruct (insert_all_in kvs ∅ key Hkey) as (v & Hv & Hlk).
    destruct (Hvals key v Hv) as (def & vs & _ & -> & _). eauto.
  - intros key v Hv. apply Hstored in Hv.
    destruct (Hvals key v Hv) as (def & vs & _ & -> & Hmap).
    exists vs. split; [reflexivity|]. now apply mapM_length in Hmap.
Qed.

Lemma firstMatchLoop_winner (item : Elem) (baseURI : string)
    (before after : list SelectRule) (alt : SelectRule) (m : Value) :
  Forall (fun a => exists r, runSelector item (select a) (attr a) baseURI = Ok r
                             /\ is_nullish r = true) before ->
  runSelector item (select alt) (attr alt) baseURI = Ok m ->
  is_nullish m = false ->
  firstMatchLoop item (before ++ alt :: after) baseURI
  = runTransforms m (transform alt).
Proof.
  intros Hbefore Hm Hnn. induction Hbefore as [|a before (r & Hr & Hnull) _ IH].
  - simpl. rewrite Hm. simpl. rewrite (or_null_not_nullish m Hnn), Hnn.
    reflexivity.
  - simpl. rewrite Hr. simpl. rewrite (or_null_nullish r Hnull). simpl.
    exact IH.
Qed.

Lemma applySteps_resolved (steps : list Value)
    (chain : list (Transform * list Value)) (value : Value) :
  resolveSteps steps = Some chain ->
  applySteps value steps = Ok (applyChain chain value).
Proof.
  revert chain value.
  induction steps as [|step steps IH]; intros chain value Hres.
  - injection Hres as <-. reflexivity.
  - cbn [resolveSteps] in Hres.
    destruct (resolveStep step) as [[t args]|] eqn:Hstep; [|discriminate].
    destruct (resolveSteps steps) as [rest|] eqn:Hrest; [|discriminate].
    injection Hres as <-.
    unfold resolveStep in Hstep.
    destruct step as [| | | | |parts|]; try discriminate.
    destruct parts as [|[| | | |name| |] args']; try discriminate.
    destruct (TRANSFORMS name) as [t'|] eqn:Hname; [|discriminate].
    injection Hstep as <- <-.
    cbn [applySteps hd tl lookupBuiltinTransform]. rewrite Hname.
    cbn [bind]. now rewrite (IH rest (t' value args') eq_refl).
Qed.

Lemma runTransforms_resolved (transformSteps : option Value)
    (chain : list (Transform * list Value)) (value : Value) :
  resolveChain transformSteps = Some chain ->
  runTransforms value transformSteps = Ok (runChain chain value).
Proof.
  unfold resolveChain, runTransforms, runChain. intros Hres.
  destruct (default (VArr []) transformSteps) as [| | | | |steps|];
    try discriminate.
  destruct (is_nullish value); [reflexivity|].
  now rewrite (applySteps_resolved steps chain value Hres).
Qed.

Lemma runChain_or_null (chain : list (Transform * list Value)) (m : Value) :
  runChain chain (or_null m) = runChain chain m.
Proof.
  unfold runChain, or_null. destruct (is_nullish m) eqn:Hm; [reflexivity|].
  now rewrite Hm.
Qed.

Lemma applyChain_app (own chain : list (Transform * list Value)) (m : Value) :
  applyChain (own ++ chain) m = applyChain chain (applyChain own m).
Proof. unfold applyChain. apply fold_left_app. Qed.

(** C10. A [firstMatch] definition runs two transform chains in sequence:
    the transforms that the steps of the winning alternative name are
    applied to the match, one after the other, and then the transforms
    that the steps of the definition itself name are applied to that
    result (nothing is applied to a [null] in between).  A plain
    definition has the transforms of its chain applied once, to the
    selected value.  The value stored by a [first] group for a field and
    the array stored by an [all] group for a field are these results, for
    the item of the group and for each root item. *)
Theorem firstMatch_runs_both_transform_chains (doc : Elem) (baseURI : string)
    (input : JsObject InputGroup) (found : Found) (selector : string)
    (group : InputGroup) :
  List.NoDup (obj_keys input) ->
  evalInput doc baseURI input = Ok found ->
  In (selector, group) input ->
  (forall (item : Elem) (def : SelectorDef)
          (chain : list (Transform * list Value)),
     resolveChain (transform (single def)) = Some chain ->
     (forall before alt after m own,
        firstMatch def = Some (before ++ alt :: after) ->
        Forall (fun a => exists r,
                    runSelector item (select a) (attr a) baseURI = Ok r
                    /\ is_nullish r = true) before ->
        runSelector item (select alt) (attr alt) baseURI = Ok m ->
        is_nullish m = false ->
        resolveChain (transform alt) = Some own ->
        evalField baseURI def item = Ok (runChain chain (runChain own m))
        /\ (is_nullish (applyChain own m) = false ->
            evalField baseURI def item
            = Ok (or_null (applyChain (own ++ chain) m))))
     /\ (forall m,
           firstMatch def = None ->
           runSelector item (select (single def)) (attr (single def)) baseURI
           = Ok m ->
           evalField baseURI def item = Ok (runChain chain m)))
  /\ (forall fieldDefs item key def,
        first group = Some fieldDefs ->
        querySelector doc selector = Ok (Some item) ->
        List.NoDup (obj_keys fieldDefs) ->
        In (key, def) fieldDefs ->
        exists v, evalField baseURI def item = Ok v
                  /\ found !! selector ≫= (.!! key) = Some v)
  /\ (forall fieldDefs rootItems key def,
        first group = None ->
        all group = Some fieldDefs ->
        querySelectorAll doc selector = Ok (Some rootItems) ->
        List.NoDup (obj_keys fieldDefs) ->
        In (key, def) fieldDefs ->
        exists vs, mapM (evalField baseURI def) rootItems = Ok vs
                   /\ found !! selector ≫= (.!! key) = Some (VArr vs)).
Proof.
  intros Hnd Hev Hin.
  destruct (evalInput_lookup _ _ _ _ _ _ Hnd Hev Hin) as (m & Hm & Hl).
  split; [|split].
  - intros item def chain Hchain. split.
    + intros before alt after r own Hfm Hbefore Hr Hnn Hown.
      assert (Heval : evalField baseURI def item
                      = Ok (runChain chain (runChain own r))).
      { unfold evalField, findFirstMatch. rewrite Hfm.
        rewrite (firstMatchLoop_winner item baseURI before after alt r
                   Hbefore Hr Hnn).
        rewrite (runTransforms_resolved _ own r Hown). cbn [bind].
        apply (runTransforms_resolved _ chain _ Hchain). }
      split; [exact Heval|].
      intros Hbetween. rewrite Heval, applyChain_app. f_equal.
      unfold runChain at 2. rewrite Hnn.
      rewrite (or_null_not_nullish _ Hbetween).
      unfold runChain. now rewrite Hbetween.
    + intros r Hfm Hr. unfold evalField, findFirstMatch. rewrite Hfm, Hr.
      cbn [bind].
      rewrite (runTransforms_resolved _ chain _ Hchain).
      now rewrite runChain_or_null.
  - intros fieldDefs item key def Hfirst Hitem Hndf Hdef.
    unfold groupValues in Hm. rewrite Hfirst, Hitem in Hm. simpl in Hm.
    destruct (firstGroupValues baseURI item fieldDefs) as [kvs|e] eqn:Hkvs;
      simpl in Hm; [|discriminate].
    injection Hm as <-.
    destruct (firstGroupValues_keys _ _ _ _ Hkvs) as [Hkeys Hvals].
    destruct (Hvals key def Hdef) as (v & Hv & Hinv).
    exists v. split; [assumption|]. rewrite Hl. simpl.
    apply insert_all_NoDup; [now rewrite Hkeys | assumption].
  - intros fieldDefs rootItems key def Hfirst Hall Hroots Hndf Hdef.
    unfold groupValues in Hm. rewrite Hfirst, Hall, Hroots in Hm. simpl in Hm.
    destruct (allGroupValues baseURI rootItems fieldDefs) as [kvs|e] eqn:Hkvs;
      simpl in Hm; [|discriminate].
    injection Hm as <-.
    destruct (allGroupValues_keys _ _ _ _ Hkvs) as [Hkeys _].
    destruct (allGroupValues_In _ _ _ _ _ _ Hkvs Hdef) as (vs & Hvs & Hinv).
    exists vs. split; [assumption|]. rewrite Hl. simpl.
    apply insert_all_NoDup; [now rewrite Hkeys | assumption].
Qed.

(** ** Transform chain *)

Lemma lookupBuiltinTransform_Throw (name : Value) (e : JsError) :
  lookupBuiltinTransform name = Throw e -> isPermanentError e = true.
Proof.
  unfold lookupBuiltinTransform.
  destruct name; try (intros [= <-]; reflexivity).
  destruct (TRANSFORMS s); [discriminate | intros [= <-]; reflexivity].
Qed.

Lemma applySteps_unknown (steps : list Value) (value : Value)
    (name : string) (args : list Value) :
  In (VArr (VStr name :: args)) steps ->
  TRANSFORMS name = None ->
  exists e, applySteps value steps = Throw e /\ isPermanentError e = true.
Proof.
  intros Hin Hname. revert value.
  induction steps as [|step steps IH]; intros value; [contradiction|].
  simpl. destruct step as [| | | | |parts|];
    try (eexists; split; reflexivity).
  destruct (lookupBuiltinTransform (hd VUndefined parts)) as [t|e] eqn:Hlk;
    simpl.
  - destruct Hin as [Heq|Hin]; [|now apply IH].
    injection Heq as ->. simpl in Hlk. now rewrite Hname in Hlk.
  - exists e. split; [reflexivity|]. now apply lookupBuiltinTransform_Throw in Hlk.
Qed.

Lemma runTransforms_unknown (steps : list Value) (value : Value)
    (name : string) (args : list Value) :
  is_nullish value = false ->
  In (VArr (VStr name :: args)) steps ->
  TRANSFORMS name = None ->
  exists e, runTransforms value (Some (VArr steps)) = Throw e
            /\ isPermanentError e = true.
Proof.
  intros Hnn Hin Hname. unfold runTransforms. simpl. rewrite Hnn.
  destruct (applySteps_unknown steps value name args Hin Hname) as (e & -> & He).
  now exists e.
Qed.

Lemma isUnknownStep_spec (step : Value) :
  isUnknownStep step = true ->
  exists name args, step = VArr (VStr name :: args) /\ TRANSFORMS name = None.
Proof.
  unfold isUnknownStep.
  destruct step as [| | | | |parts|]; try discriminate.
  destruct parts as [|[| | | |name| |] args]; try discriminate.
  destruct (TRANSFORMS name) eqn:Hname; [discriminate|]. eauto.
Qed.

Lemma runTransforms_references_unknown (transformSteps : option Value)
    (value : Value) :
  is_nullish value = false ->
  referencesUnknown transformSteps = true ->
  exists e, runTransforms value transformSteps = Throw e
            /\ isPermanentError e = true.
Proof.
  intros Hnn Href. unfold referencesUnknown in Href.
  destruct transformSteps as [[| | | | |steps|]|]; try discriminate.
  apply existsb_exists in Href. destruct Href as (step & Hin & Hstep).
  destruct (isUnknownStep_spec step Hstep) as (name & args & -> & Hname).
  exact (runTransforms_unknown steps value name args Hnn Hin Hname).
Qed.

Lemma evalFirstField_Throw_field (item : Elem) (baseURI selector key : string)
    (def : SelectorDef) (found : Found) (e : JsError) :
  evalField baseURI def item = Throw e ->
  evalFirstField item baseURI selector found (key, def) = Throw e.
Proof.
  unfold evalField, evalFirstField.
  destruct (findFirstMatch item def baseURI) as [value|e1]; cbn [bind];
    intros Hthrow; [now rewrite Hthrow | now injection Hthrow as ->].
Qed.

Lemma evalAllItem_Throw_field (item : Elem) (baseURI selector key : string)
    (def : SelectorDef) (found : Found) (e : JsError) :
  evalField baseURI def item = Throw e ->
  evalAllItem def baseURI selector key found item = Throw e.
Proof.
  unfold evalField, evalAllItem.
  destruct (findFirstMatch item def baseURI) as [value|e1]; cbn [bind];
    intros Hthrow; [now rewrite Hthrow | now injection Hthrow as ->].
Qed.

(** C8. When the rule evaluator reaches a field and applies to a selected
    value that is not [null] a chain whose steps name a transform that is
    not in the registry (the chain of the winning [firstMatch]
    alternative on the match, or the chain of the definition on the value
    that [findFirstMatch] returns), the evaluation of the field raises a
    permanent error, and this error is what [extractMessages] raises: it
    answers with no messages.  The error belongs to the evaluation: on a
    [null] or [undefined] value the same steps answer [null] and the
    registry is not consulted. *)
Theorem unknown_transform_raises_permanent_error (rules : JsObject Rule)
    (ctry : string) (doc doc' : Elem) (query : Value) (category url : string)
    (r : Rule) (def : SelectorDef) (item : Elem) :
  obj_lookup category rules = Some r ->
  runPrune doc (preprocess r) = Ok doc' ->
  reachesField doc' url (default [] (input r)) def item ->
  (exists before alt after m,
     firstMatch def = Some (before ++ alt :: after)
     /\ Forall (fun a => exists v,
                  runSelector item (select a) (attr a) url = Ok v
                  /\ is_nullish v = true) before
     /\ runSelector item (select alt) (attr alt) url = Ok m
     /\ is_nullish m = false
     /\ referencesUnknown (transform alt) = true)
  \/ (exists value,
        findFirstMatch item def url = Ok value
        /\ is_nullish value = false
        /\ referencesUnknown (transform (single def)) = true) ->
  (exists e,
     evalField url def item = Throw e
     /\ isPermanentError e = true
     /\ extractMessages rules ctry doc query category url = Throw e)
  /\ (forall transformSteps,
        referencesUnknown transformSteps = true ->
        runTransforms VNull transformSteps = Ok VNull
        /\ runTransforms VUndefined transformSteps = Ok VNull).
Proof.
  intros Hrule Hprune Hreach Hunknown.
  split.
  - assert (Hfield : exists e, evalField url def item = Throw e
                               /\ isPermanentError e = true).
    { unfold evalField.
      destruct Hunknown as [(before & alt & after & m & Hfm & Hbefore & Hm
                             & Hnn & Href)
                           |(value & Hvalue & Hnn & Href)].
      - destruct (runTransforms_references_unknown _ m Hnn Href)
          as (e & Hthrow & Hperm).
        exists e. split; [|assumption].
        unfold findFirstMatch. rewrite Hfm.
        rewrite (firstMatchLoop_winner item url before after alt m
                   Hbefore Hm Hnn).
        now rewrite Hthrow.
      - destruct (runTransforms_references_unknown _ value Hnn Href)
          as (e & Hthrow & Hperm).
        exists e. split; [|assumption]. rewrite Hvalue. cbn [bind].
        exact Hthrow. }
    destruct Hfield as (e & Hthrow & Hperm).
    exists e. split; [assumption|]. split; [assumption|].
    unfold extractMessages. rewrite Hrule, Hprune. simpl.
    destruct Hreach as (before & selector & group & after & found0
                        & fieldsBefore & key & fieldsAfter & found1 & Hinput
                        & Hbefore & Hgroup).
    assert (Hev : evalInput doc' url (default [] (input r)) = Throw e);
      [|now rewrite Hev].
    unfold evalInput. rewrite Hinput, forEachM_app, Hbefore.
    cbn [bind forEachM].
    assert (Hg : evalGroup doc' url found0 (selector, group) = Throw e);
      [|now rewrite Hg].
    unfold evalGroup.
    destruct Hgroup as [(Hfirst & Hitem & Hfields)
                       |(itemsBefore & itemsAfter & found2 & Hfirst & Hall
                         & Hroots & Hfields & Hitems)].
    + rewrite Hfirst, Hitem. cbn [bind].
      rewrite forEachM_app, Hfields. cbn [bind forEachM].
      now rewrite (evalFirstField_Throw_field _ _ _ _ _ _ _ Hthrow).
    + rewrite Hfirst, Hall, Hroots. cbn [bind].
      rewrite forEachM_app, Hfields. cbn [bind forEachM].
      unfold evalAllField at 1. rewrite forEachM_app, Hitems.
      cbn [bind forEachM].
      now rewrite (evalAllItem_Throw_field _ _ _ _ _ _ _ Hthrow).
  - intros transformSteps Href. unfold referencesUnknown in Href.
    destruct transformSteps as [[| | | | |steps|]|]; try discriminate.
    split; reflexivity.
Qed.

End RuleEvaluator.


(** ** Message assembler *)

Lemma array_filter_no_holes {A} (p : A -> bool) (l : list A) :
  array_filter p (map Some l) = List.filter p l.
Proof.
  unfold array_filter. induction l as [|x l IH]; simpl; [reflexivity|].
  rewrite IH. now destruct (p x).
Qed.

Lemma obj_set_fresh {A} (k : string) (v : A) (obj : JsObject A) :
  ~ In k (obj_keys obj) -> obj_set k v obj = obj ++ [(k, v)].
Proof.
  induction obj as [|[k0 w] obj IH]; simpl; [reflexivity|].
  intros Hnotin. destruct (String.eqb k0 k) eqn:E.
  - apply String.eqb_eq in E. tauto.
  - f_equal. apply IH. tauto.
Qed.

(** The first column pushes one entry for each of its values. *)
Lemma merge_first_column (innerKey : string) (values : list Value)
    (results : JsArray (JsObject Value)) :
  forEachIdx (mergeValue innerKey) values (length results) results
  = results ++ map (fun v => Some [(innerKey, or_null v)]) values.
Proof.
  revert results. induction values as [|v values IH]; intros results; simpl.
  - now rewrite app_nil_r.
  - assert (Hstep : mergeValue innerKey results v (length results)
                    = results ++ [Some [(innerKey, or_null v)]]).
    { unfold mergeValue, array_set.
      rewrite lookup_ge_None_2 by lia. simpl.
      destruct (decide (length results < length results)) as [Hlt|_]; [lia|].
      now rewrite Nat.sub_diag. }
    rewrite Hstep.
    replace (S (length results))
      with (length (results ++ [Some [(innerKey, or_null v)]]))
      by (rewrite length_app; simpl; lia).
    rewrite IH, <- app_assoc. reflexivity.
Qed.

(** A later column updates the entries in place. *)
Lemma merge_next_column (innerKey : string) (values : list Value)
    (done : JsArray (JsObject Value)) (entries : list (JsObject Value)) :
  length entries = length values ->
  forEachIdx (mergeValue innerKey) values (length done)
    (done ++ map Some entries)
  = done ++ map Some (zip_with (fun e v => obj_set innerKey (or_null v) e)
                        entries values).
Proof.
  revert done entries.
  induction values as [|v values IH]; intros done [|e entries] Hlen;
    simpl in Hlen; try discriminate; simpl; [reflexivity|].
  assert (Hstep : mergeValue innerKey (done ++ Some e :: map Some entries) v
                    (length done)
                  = (done ++ [Some (obj_set innerKey (or_null v) e)])
                      ++ map Some entries).
  { unfold mergeValue, array_set.
    rewrite list_lookup_middle by reflexivity. simpl.
    destruct (decide (length done < length (done ++ Some e :: map Some entries)))
      as [_|Hge]; [|rewrite length_app in Hge; simpl in Hge; lia].
    rewrite insert_app_r_alt, Nat.sub_diag by lia. simpl.
    now rewrite <- app_assoc. }
  rewrite Hstep.
  replace (S (length done))
    with (length (done ++ [Some (obj_set innerKey (or_null v) e)]))
    by (rewrite length_app; simpl; lia).
  rewrite IH by lia. now rewrite <- app_assoc.
Qed.

Lemma zipEntry_snoc (done : list string) (k : string)
    (column : string -> list Value) (i : nat) :
  ~ In k done ->
  obj_set k (or_null (default VUndefined (column k !! i)))
    (zipEntry done column i)
  = zipEntry (done ++ [k]) column i.
Proof.
  intros Hnotin. unfold zipEntry. rewrite map_app. simpl.
  apply obj_set_fresh. unfold obj_keys. rewrite map_map. simpl.
  now rewrite map_id.
Qed.

Lemma zip_next_column (done : list string) (k : string)
    (column : string -> list Value) (n : nat) :
  ~ In k done ->
  length (column k) = n ->
  zip_with (fun e v => obj_set k (or_null v) e)
    (map (zipEntry done column) (seq 0 n)) (column k)
  = map (zipEntry (done ++ [k]) column) (seq 0 n).
Proof.
  intros Hnotin Hlen. apply list_eq. intros i.
  rewrite lookup_zip_with. change map with (@fmap list _) at 1 2.
  rewrite !list_lookup_fmap.
  destruct (decide (i < n)) as [Hlt|Hge].
  - rewrite lookup_seq_lt by assumption. simpl.
    destruct (lookup_lt_is_Some_2 (column k) i) as [v Hv]; [lia|].
    rewrite Hv. simpl. rewrite <- zipEntry_snoc by assumption.
    now rewrite Hv.
  - now rewrite lookup_seq_ge by lia.
Qed.

Section Assembler.

Context {Elem : Type} `{DomOps : Dom Elem} `{EnvOps : Env}.

Lemma merge_later_columns (found : Found) (src : string)
    (column : string -> list Value) (n : nat) (rest done : list string) :
  List.NoDup (done ++ rest) ->
  (forall k, In k rest ->
     found !! src ≫= (.!! k) = Some (VArr (column k))
     /\ length (column k) = n) ->
  forEachM (mergeColumn found src) rest
    (map Some (map (zipEntry done column) (seq 0 n)))
  = Ok (map Some (map (zipEntry (done ++ rest) column) (seq 0 n))).
Proof.
  revert done. induction rest as [|k rest IH]; intros done Hnd Hcols.
  - now rewrite app_nil_r.
  - destruct (Hcols k (or_introl eq_refl)) as [Hk Hlen].
    cbn [forEachM]. unfold mergeColumn at 1, found_read.
    destruct (found !! src) as [m|]; simpl in Hk; [|discriminate].
    rewrite Hk. simpl.
    pose proof (merge_next_column k (column k) []
                  (map (zipEntry done column) (seq 0 n))) as Hm.
    simpl in Hm. rewrite Hm by (now rewrite length_map, length_seq).
    rewrite zip_next_column; try assumption.
    + rewrite (IH (done ++ [k])).
      * now rewrite <- app_assoc.
      * now rewrite <- app_assoc.
      * intros k' Hk'. apply Hcols. now right.
    + apply List.NoDup_remove_2 in Hnd. intros Hin. apply Hnd.
      apply in_or_app. now left.
Qed.

Lemma merge_columns (found : Found) (src : string)
    (column : string -> list Value) (innerKeys : list string) :
  List.NoDup innerKeys ->
  (forall k, In k innerKeys ->
     found !! src ≫= (.!! k) = Some (VArr (column k))
     /\ length (column k) = zipLength innerKeys column) ->
  forEachM (mergeColumn found src) innerKeys []
  = Ok (map Some (zipEntries innerKeys column)).
Proof.
  intros Hnd Hcols. unfold zipEntries.
  destruct innerKeys as [|k rest]; [reflexivity|].
  destruct (Hcols k (or_introl eq_refl)) as [Hk _].
  cbn [forEachM]. unfold mergeColumn at 1, found_read.
  destruct (found !! src) as [m|] eqn:Hsrc; simpl in Hk; [|discriminate].
  rewrite Hk. simpl.
  pose proof (merge_first_column k (column k) []) as Hm. simpl in Hm.
  rewrite Hm.
  assert (Hfirst : map (fun v => Some [(k, or_null v)]) (column k)
                   = map Some (map (zipEntry [k] column)
                                 (seq 0 (length (column k))))).
  { apply list_eq. intros i. change map with (@fmap list _).
    rewrite !list_lookup_fmap.
    destruct (decide (i < length (column k))) as [Hlt|Hge].
    - rewrite lookup_seq_lt by assumption. simpl.
      destruct (lookup_lt_is_Some_2 (column k) i Hlt) as [v Hv].
      rewrite Hv. simpl. unfold zipEntry. simpl. now rewrite ?Hv.
    - rewrite lookup_seq_ge by lia. now rewrite lookup_ge_None_2 by lia. }
  rewrite Hfirst.
  apply (merge_later_columns found src column (length (column k)) rest [k]).
  - exact Hnd.
  - intros k' Hk'. rewrite Hsrc. apply (Hcols k'). now right.
Qed.

Lemma assembleField_all_type (input : JsObject InputGroup)
    (found : Found) (context : JsObject Value) (action : string)
    (payload : JsObject Value) (field : OutputField) (src : string)
    (group : InputGroup) (fieldDefs : JsObject SelectorDef)
    (column : string -> list Value) :
  source field = Some src ->
  truthy_string (Some src) = true ->
  obj_lookup src input = Some group ->
  first group = None ->
  all group = Some fieldDefs ->
  List.NoDup (obj_keys fieldDefs) ->
  (forall k, In k (obj_keys fieldDefs) ->
     found !! src ≫= (.!! k) = Some (VArr (column k))
     /\ length (column k) = zipLength (obj_keys fieldDefs) column) ->
  assembleField input found context action payload field
  = Ok (arrayMergedField (obj_keys fieldDefs) column field payload).
Proof.
  intros Hsource Htruthy Hgroup Hfirst Hall Hnd Hcols.
  unfold assembleField. rewrite Hsource, Htruthy. simpl.
  rewrite Hgroup, Hfirst, Hall.
  rewrite (merge_columns found src column (obj_keys fieldDefs) Hnd Hcols).
  simpl. rewrite array_filter_no_holes.
  unfold arrayMergedField, allFieldsPresent, spread_array.
  destruct (List.filter _ (zipEntries (obj_keys fieldDefs) column))
    as [|entry entries]; simpl.
  - now destruct (optional field).
  - reflexivity.
Qed.

(** C5. For an output field whose source is an [all] input group, the
    assembler zips the per-field arrays of the group (for each declared
    field, the values the rule evaluator extracted from the root items)
    into entry objects, keeps the entries in which every required key
    ([requiredKeys], by default all fields declared under the group) is
    present, discards the action when no entry is left and the field is
    not optional, and otherwise assigns the positional mapping ["0"],
    ["1"], ... of the entries that are left. *)
Theorem all_type_field_merges_arrays (doc : Elem) (baseURI : string)
    (input : JsObject InputGroup) (found : Found) (context : JsObject Value)
    (action : string) (payload : JsObject Value) (field : OutputField)
    (src : string) (group : InputGroup) (fieldDefs : JsObject SelectorDef)
    (rootItems : list Elem) :
  List.NoDup (obj_keys input) ->
  evalInput doc baseURI input = Ok found ->
  source field = Some src ->
  truthy_string (Some src) = true ->
  obj_lookup src input = Some group ->
  first group = None ->
  all group = Some fieldDefs ->
  List.NoDup (obj_keys fieldDefs) ->
  querySelectorAll doc src = Ok (Some rootItems) ->
  exists column : string -> list Value,
    (forall k def, In (k, def) fieldDefs ->
       mapM (evalField baseURI def) rootItems = Ok (column k))
    /\ assembleField input found context action payload field
       = Ok (arrayMergedField (obj_keys fieldDefs) column field payload).
Proof.
  intros Hndi Hev Hsource Htruthy Hgroup Hfirst Hall Hnd Hroots.
  destruct (evalInput_lookup doc baseURI input found src group Hndi Hev
              (obj_lookup_In _ _ _ Hgroup)) as (m & Hm & Hl).
  unfold groupValues in Hm. rewrite Hfirst, Hall, Hroots in Hm. simpl in Hm.
  destruct (allGroupValues baseURI rootItems fieldDefs) as [kvs|e] eqn:Hkvs;
    simpl in Hm; [|discriminate].
  injection Hm as <-.
  destruct (allGroupValues_keys _ _ _ _ Hkvs) as [Hkeys _].
  set (column := fun k : string =>
                   match insert_all kvs ∅ !! k with
                   | Some (VArr vs) => vs
                   | _ => []
                   end).
  assert (Hcol : forall k def, In (k, def) fieldDefs ->
            insert_all kvs ∅ !! k = Some (VArr (column k))
            /\ mapM (evalField baseURI def) rootItems = Ok (column k)).
  { intros k def Hdef.
    destruct (allGroupValues_In _ _ _ _ _ _ Hkvs Hdef) as (vs & Hvs & Hin).
    assert (Hk : insert_all kvs ∅ !! k = Some (VArr vs))
      by (apply insert_all_NoDup; [now rewrite Hkeys | assumption]).
    unfold column. rewrite Hk. now split. }
  exists column. split; [intros k def Hdef; apply (Hcol k def Hdef)|].
  assert (Hlen : forall k, In k (obj_keys fieldDefs) ->
            insert_all kvs ∅ !! k = Some (VArr (column k))
            /\ length (column k) = length rootItems).
  { intros k Hk. unfold obj_keys in Hk. apply in_map_iff in Hk.
    destruct Hk as ([k' def] & <- & Hdef). simpl.
    destruct (Hcol k' def Hdef) as [Hstored Hmap].
    split; [assumption | now apply mapM_length in Hmap]. }
  apply (assembleField_all_type input found context action payload field src
           group fieldDefs column Hsource Htruthy Hgroup Hfirst Hall Hnd).
  intros k Hk. rewrite Hl. simpl. destruct (Hlen k Hk) as [Hstored Hk_len].
  split; [assumption|]. rewrite Hk_len.
  destruct fieldDefs as [|[k1 d1] rest]; [contradiction|].
  simpl. symmetry. apply (Hlen k1). now left.
Qed.

(** C9. A context field (a field without [source]) never discards the
    action and never throws: when it is optional and its context value is
    [null] or [undefined] it is inserted with the value [null], when it is
    not optional and its context value is absent the payload is left as
    it is, and in every case the loop goes on with the next field. *)
Theorem context_field_keeps_action_eligible (input : JsObject InputGroup)
    (found : Found) (context : JsObject Value) (action : string)
    (payload : JsObject Value) (field : OutputField) :
  truthy_string (source field) = false ->
  (optional field = true ->
   is_nullish (obj_get context (key field)) = true ->
   assembleField input found context action payload field
   = Ok (Assigned (obj_set (key field) VNull payload)))
  /\ (optional field = false ->
      isPresent (obj_get context (key field)) = false ->
      assembleField input found context action payload field
      = Ok (Assigned payload))
  /\ (exists payload',
        assembleField input found context action payload field
        = Ok (Assigned payload')
        /\ forall rest,
             assembleFields input found context action (field :: rest) payload
             = assembleFields input found context action rest payload').
Proof.
  intros Hsource. unfold assembleField. rewrite Hsource.
  split; [|split].
  - intros -> Hnull. simpl. now rewrite (or_null_nullish _ Hnull).
  - intros -> Habsent. now rewrite Habsent.
  - assert (Hfield : exists payload',
               assembleField input found context action payload field
               = Ok (Assigned payload')).
    { unfold assembleField. rewrite Hsource.
      destruct (negb (optional field)
                && negb (isPresent (obj_get context (key field)))); eauto. }
    destruct Hfield as (payload' & Hfield). exists payload'.
    unfold assembleField in Hfield. rewrite Hsource in Hfield.
    split; [exact Hfield|].
    intros rest. cbn [assembleFields]. unfold assembleField.
    rewrite Hsource, Hfield. reflexivity.
Qed.

Lemma evalGroups_is_Some (doc : Elem) (baseURI : string)
    (input : JsObject InputGroup) (found0 found : Found) (selector : string) :
  forEachM (evalGroup doc baseURI) input found0 = Ok found ->
  In selector (obj_keys input) \/ is_Some (found0 !! selector) ->
  is_Some (found !! selector).
Proof.
  revert found0. induction input as [|[sel g] input IH]; intros found0;
    cbn [forEachM].
  - intros [= <-] [[]|H]. exact H.
  - rewrite evalGroup_spec.
    destruct (groupValues doc baseURI sel g _) as [m|e]; simpl; [|discriminate].
    intros Hrest Hsel. apply (IH _ Hrest).
    destruct (String.string_dec sel selector) as [->|Hne].
    + right. rewrite lookup_insert_eq. eauto.
    + destruct Hsel as [[Heq|Hin]|Hsome]; [contradiction | now left |].
      right. now rewrite lookup_insert_ne.
Qed.

Lemma assembleFields_discarded (input : JsObject InputGroup) (found : Found)
    (context : JsObject Value) (action : string) (fields : list OutputField)
    (field : OutputField) :
  In field fields ->
  (forall payload,
     assembleField input found context action payload field = Ok NextAction) ->
  forall payload payload',
    assembleFields input found context action fields payload
    <> Ok (Assigned payload').
Proof.
  intros Hin Hdiscard.
  induction fields as [|f fields IH]; [contradiction|].
  intros payload payload'. cbn [assembleFields].
  destruct Hin as [->|Hin].
  - rewrite Hdiscard. discriminate.
  - destruct (assembleField input found context action payload f)
      as [[p|]|e]; simpl; try discriminate.
    now apply IH.
Qed.

Lemma assembleActions_sound (input : JsObject InputGroup) (found : Found)
    (context : JsObject Value) (output : JsObject OutputSchema)
    (messages0 messages : list Message.t) :
  forEachM (assembleAction input found context) output messages0
  = Ok messages ->
  forall msg, In msg messages ->
    In msg messages0
    \/ exists schema payload,
         In (Body.action (Message.body msg), schema) output
         /\ assembleFields input found context
              (Body.action (Message.body msg)) (fields schema) []
            = Ok (Assigned payload).
Proof.
  revert messages0.
  induction output as [|[action schema] output IH]; intros messages0;
    cbn [forEachM].
  - intros [= <-] msg Hmsg. now left.
  - unfold assembleAction at 1.
    destruct (assembleFields input found context action (fields schema) [])
      as [[payload|]|e] eqn:Hfields; simpl; try discriminate.
    + intros Hrest msg Hmsg.
      destruct (IH _ Hrest msg Hmsg) as [Hin|(s & p & Hs & Hp)].
      * apply in_app_or in Hin. destruct Hin as [Hin|[<-|[]]]; [now left|].
        right. exists schema, payload. simpl. split; [now left | assumption].
      * right. exists s, p. split; [now right | assumption].
    + intros Hrest msg Hmsg.
      destruct (IH _ Hrest msg Hmsg) as [Hin|(s & p & Hs & Hp)]; [now left|].
      right. exists s, p. split; [now right | assumption].
Qed.

(** C3 (amended). For an output field whose source is a [first] input
    group, the body of the field loop discards the action when the field is
    not optional and the extracted value is absent ([null], [undefined] or
    the empty string), and otherwise assigns [value ?? null]: [null] and
    [undefined] become [null], every other value is assigned as it is.
    In the first case [extractMessages] answers with no message for that
    action. *)
Theorem first_type_field_required_or_assigned (rules : JsObject Rule)
    (ctry : string) (doc doc' : Elem) (query : Value) (category url : string)
    (r : Rule) (found : Found) (action : string) (schema : OutputSchema)
    (field : OutputField) (src : string) (group : InputGroup)
    (fieldDefs : JsObject SelectorDef) :
  obj_lookup category rules = Some r ->
  runPrune doc (preprocess r) = Ok doc' ->
  evalInput doc' url (default [] (input r)) = Ok found ->
  source field = Some src ->
  truthy_string (Some src) = true ->
  obj_lookup src (default [] (input r)) = Some group ->
  first group = Some fieldDefs ->
  exists value,
    found_read found src (key field) = Ok value
    /\ (forall payload,
          assembleField (default [] (input r)) found
            (mkContext query url ctry) action payload field
          = Ok (if negb (optional field) && negb (isPresent value)
                then NextAction
                else Assigned (obj_set (key field) (or_null value) payload)))
    /\ (is_nullish value = true -> or_null value = VNull)
    /\ (is_nullish value = false -> or_null value = value)
    /\ (optional field = false ->
        isPresent value = false ->
        List.NoDup (obj_keys (default [] (output r))) ->
        In (action, schema) (default [] (output r)) ->
        In field (fields schema) ->
        forall messages,
          extractMessages rules ctry doc query category url = Ok messages ->
          forall msg, In msg messages ->
            Body.action (Message.body msg) <> action).
Proof.
  intros Hrule Hprune Hev Hsource Htruthy Hgroup Hfirst.
  assert (Hsome : is_Some (found !! src)).
  { apply (evalGroups_is_Some doc' url (default [] (input r)) ∅ found src Hev).
    left. apply obj_lookup_In in Hgroup. unfold obj_keys.
    apply in_map_iff. now exists (src, group). }
  destruct Hsome as [m Hm].
  exists (default VUndefined (m !! key field)).
  set (value := default VUndefined (m !! key field)).
  assert (Hread : found_read found src (key field) = Ok value).
  { unfold found_read. now rewrite Hm. }
  assert (Hfield : forall payload,
             assembleField (default [] (input r)) found
               (mkContext query url ctry) action payload field
             = Ok (if negb (optional field) && negb (isPresent value)
                   then NextAction
                   else Assigned (obj_set (key field) (or_null value) payload))).
  { intros payload. unfold assembleField.
    rewrite Hsource, Htruthy. simpl. rewrite Hgroup, Hfirst, Hread. simpl.
    now destruct (negb (optional field) && negb (isPresent value)). }
  split; [exact Hread|]. split; [exact Hfield|].
  split; [apply or_null_nullish|]. split; [apply or_null_not_nullish|].
  intros Hopt Habsent Hnd Hschema Hin messages Hextract msg Hmsg Haction.
  unfold extractMessages in Hextract.
  rewrite Hrule, Hprune in Hextract. simpl in Hextract. rewrite Hev in Hextract.
  simpl in Hextract.
  destruct (forEachM _ (default [] (output r)) []) as [assembled|e] eqn:Hasm;
    simpl in Hextract; [|discriminate].
  injection Hextract as <-.
  unfold filterRedundant in Hmsg. apply filter_In in Hmsg.
  destruct Hmsg as [Hmsg _].
  destruct (assembleActions_sound _ _ _ _ _ _ Hasm msg Hmsg)
    as [[]|(schema' & payload & Hschema' & Hfields)].
  rewrite Haction in Hschema', Hfields.
  assert (schema' = schema) as ->
      by (eapply NoDup_keys_unique; eassumption).
  revert Hfields.
  apply (assembleFields_discarded _ _ _ _ _ field Hin).
  intros p. rewrite Hfield, Hopt, Habsent. reflexivity.
Qed.

(** ** Redundancy filter *)

Lemma isRedundant_spec (output : JsObject OutputSchema)
    (messages : list Message.t) (msg : Message.t) :
  isRedundant output messages msg = true
  <-> exists a x, In a (omitList output (Body.action (Message.body msg)))
                  /\ In x messages /\ Body.action (Message.body x) = a.
Proof.
  unfold isRedundant. rewrite existsb_exists. split.
  - intros (a & Ha & Hex). apply existsb_exists in Hex.
    destruct Hex as (x & Hx & Heq). apply String.eqb_eq in Heq. eauto.
  - intros (a & x & Ha & Hx & Heq). exists a. split; [assumption|].
    apply existsb_exists. exists x. split; [assumption|].
    now apply String.eqb_eq.
Qed.

(** C2 (amended). The redundancy filter is a single pass against the set
    of actions emitted before filtering: [extractMessages] answers with the
    assembled messages from which exactly those are dropped whose
    [omitIfExistsAny] lists the action of some assembled message.  The
    message itself counts: a message whose own action is listed in its own
    [omitIfExistsAny] is always dropped. *)
Theorem redundancy_filter_single_pass (rules : JsObject Rule) (ctry : string)
    (doc doc' : Elem) (query : Value) (category url : string) (r : Rule)
    (found : Found) (assembled : list Message.t) :
  obj_lookup category rules = Some r ->
  runPrune doc (preprocess r) = Ok doc' ->
  evalInput doc' url (default [] (input r)) = Ok found ->
  forEachM (assembleAction (default [] (input r)) found
              (mkContext query url ctry)) (default [] (output r)) []
  = Ok assembled ->
  extractMessages rules ctry doc query category url
  = Ok (filterRedundant (default [] (output r)) assembled)
  /\ (forall msg,
        In msg (filterRedundant (default [] (output r)) assembled)
        <-> In msg assembled
            /\ forall a x,
                 In a (omitList (default [] (output r))
                         (Body.action (Message.body msg))) ->
                 In x assembled ->
                 Body.action (Message.body x) <> a)
  /\ (forall msg,
        In msg assembled ->
        In (Body.action (Message.body msg))
           (omitList (default [] (output r)) (Body.action (Message.body msg))) ->
        ~ In msg (filterRedundant (default [] (output r)) assembled)).
Proof.
  intros Hrule Hprune Hev Hasm.
  assert (Hkeep : forall msg,
             In msg (filterRedundant (default [] (output r)) assembled)
             <-> In msg assembled
                 /\ forall a x,
                      In a (omitList (default [] (output r))
                              (Body.action (Message.body msg))) ->
                      In x assembled ->
                      Body.action (Message.body x) <> a).
  { intros msg. unfold filterRedundant. rewrite filter_In.
    apply and_iff_compat_l. rewrite negb_true_iff.
    split.
    - intros Hnot a x Ha Hx Heq.
      assert (Hred : isRedundant (default [] (output r)) assembled msg = true)
        by (apply isRedundant_spec; eauto).
      congruence.
    - intros Hnone.
      destruct (isRedundant (default [] (output r)) assembled msg) eqn:Hred;
        [|reflexivity].
      apply isRedundant_spec in Hred. destruct Hred as (a & x & Ha & Hx & Heq).
      exfalso. exact (Hnone a x Ha Hx Heq). }
  split; [|split].
  - unfold extractMessages. rewrite Hrule, Hprune. simpl. rewrite Hev. simpl.
    now rewrite Hasm.
  - exact Hkeep.
  - intros msg Hmsg Hself Hkept. apply Hkeep in Hkept.
    destruct Hkept as [_ Hnone]. exact (Hnone _ msg Hself Hmsg eq_refl).
Qed.

End Assembler.


(** ** Cooldown gate and job entry point *)

(** The case analysis of [runJob]: the suspicion check, the answer of
    [add], the fetch, the parser and the extraction. *)
Ltac job_cases job w :=
  unfold runJob, fetchAndExtract, persistedHashes_add, fetchDocument,
    persistedHashes_delete, discard, emit;
  destruct (checkSuspiciousQuery (query job)) as [[[|] why]|e0] eqn:Hcheck;
  cbn [fst snd negb persistedHashes events];
  [ destruct (hashesAdd (doublefetchQueryHash (query job) (category job))
                timezoneAgnosticDailyExpireAt (persistedHashes w))
      as [[[|]|e4] store] eqn:Hadd;
    cbn [fst snd negb persistedHashes events];
    [ destruct (anonymousHttpGet (doublefetchRequest job) true) as [html|e1]
        eqn:Hfetch;
      cbn [fst snd persistedHashes events];
      [ destruct (parseHtml html) as [doc|e2] eqn:Hparse;
        cbn [fst snd persistedHashes events];
        [ destruct (extractMessagesOf doc job) as [[|msg msgs]|e3] eqn:Hextract;
          cbn [fst snd length Nat.eqb persistedHashes events]
        | ]
      | ]
    | | ]
  | | ].

(** A call is one of the calls listed. *)
Ltac among_calls H :=
  cbn [In] in H;
  repeat (destruct H as [H|H]; [try discriminate H|]);
  try contradiction.

Section JobProperties.

Context {Elem Store : Type} `{DomOps : Dom Elem} `{EnvOps : Env}
        `{Collab : Collaborators Elem Store}.

Lemma persistedHashes_add_answer (hash expireAt : Z) (w : World Store)
    (answer : Result bool) (store : Store) :
  hashesAdd hash expireAt (persistedHashes w) = (answer, store) ->
  persistedHashes_add hash expireAt w
  = (answer, mkWorld store (events w ++ [HashAdd hash expireAt])).
Proof. intros Hadd. unfold persistedHashes_add. simpl. now rewrite Hadd. Qed.

(** C7. For every job, the fingerprint with which [runJob] calls the
    store is the truncated fast hash of [dfq:{category}:{trimmed query}]:
    every call of [add] and of [delete] carries it, and a job whose query
    is accepted calls [add] with it before anything else.  When [add]
    answers [false] for it, the job finishes with an empty message list:
    after the call of [add] it only logs, it neither fetches nor
    extracts. *)
Theorem cooldown_gate_finishes_seen_query_empty (job : JobArgs)
    (w : World Store) :
  let fingerprint :=
    fastHash ("dfq:" ++ category job ++ ":" ++ String_trim (query job)) true in
  (exists calls,
     events (snd (runJob job w)) = events w ++ calls
     /\ (forall hash expireAt,
           In (HashAdd hash expireAt) calls ->
           hash = fingerprint /\ expireAt = timezoneAgnosticDailyExpireAt)
     /\ (forall hash, In (HashDelete hash) calls -> hash = fingerprint)
     /\ (forall why,
           checkSuspiciousQuery (query job) = Ok (true, why) ->
           exists rest,
             calls = HashAdd fingerprint timezoneAgnosticDailyExpireAt :: rest))
  /\ (forall why store,
        checkSuspiciousQuery (query job) = Ok (true, why) ->
        hashesAdd fingerprint timezoneAgnosticDailyExpireAt (persistedHashes w)
        = (Ok false, store) ->
        runJob job w
        = (Ok (mkJobResult [] (Some "Query has been recently seen.")),
           mkWorld store
             (events w
              ++ [HashAdd fingerprint timezoneAgnosticDailyExpireAt;
                  Log Debug ("No messages found for query: " ++ query job ++
                             " Reason: " ++
                             "Query has been recently seen.")]))).
Proof.
  intros fingerprint. split.
  - job_cases job w; unfold doublefetchQueryHash; fold fingerprint;
      rewrite <- ?app_assoc; cbn [app].
    all: try (eexists; split; [reflexivity|]).
    all: try (exists []; split; [now rewrite app_nil_r|]).
    all: split; [|split].
    all: try (intros hash expireAt Hin; among_calls Hin;
              now injection Hin as <- <-).
    all: try (intros hash Hin; among_calls Hin; now injection Hin as <-).
    all: try (intros why' Hwhy; eexists; reflexivity).
    all: try (intros why' Hwhy; discriminate Hwhy).
  - intros why store Haccept Hadd.
    unfold runJob. rewrite Haccept. cbn [fst negb].
    unfold doublefetchQueryHash. fold fingerprint.
    rewrite (persistedHashes_add_answer _ _ _ _ _ Hadd). cbn [negb].
    unfold discard, emit. simpl. now rewrite <- app_assoc.
Qed.

(** C6. In a job that passed the suspicion check and took the cooldown
    slot: when the fetch or the HTML parser throws, [delete] is called for
    the fingerprint and the error is thrown to the caller, without any
    extraction; when [extractMessages] throws, the error is logged and the
    job finishes with an empty message list, and [delete] is not called:
    the store is left as [add] made it. *)
Theorem fetch_error_propagates_extraction_error_is_swallowed (job : JobArgs)
    (w : World Store) (why : string) (store : Store) (e : JsError) :
  checkSuspiciousQuery (query job) = Ok (true, why) ->
  hashesAdd (doublefetchQueryHash (query job) (category job))
    timezoneAgnosticDailyExpireAt (persistedHashes w) = (Ok true, store) ->
  let queryHash := doublefetchQueryHash (query job) (category job) in
  let request := doublefetchRequest job in
  let failed :=
    Log Info ("Failed to fetch query: " ++ url request ++ " " ++
              error_to_string e) in
  (anonymousHttpGet request true = Throw e ->
   runJob job w
   = (Throw e,
      mkWorld (hashesDelete queryHash store)
        (events w ++ [HashAdd queryHash timezoneAgnosticDailyExpireAt;
                      HttpGet request; failed; HashDelete queryHash])))
  /\ (forall html,
        anonymousHttpGet request true = Ok html ->
        parseHtml html = Throw e ->
        runJob job w
        = (Throw e,
           mkWorld (hashesDelete queryHash store)
             (events w ++ [HashAdd queryHash timezoneAgnosticDailyExpireAt;
                           HttpGet request; ParseHtml html; failed;
                           HashDelete queryHash])))
  /\ (forall html doc,
        anonymousHttpGet request true = Ok html ->
        parseHtml html = Ok doc ->
        extractMessagesOf doc job = Throw e ->
        runJob job w
        = (Ok (mkJobResult []
                 (Some ("Unsupported pattern: " ++ error_to_string e)%string)),
           mkWorld store
             (events w ++ [HashAdd queryHash timezoneAgnosticDailyExpireAt;
                           HttpGet request; ParseHtml html; ExtractMessages;
                           Log Warn ("Processing failed: " ++
                                     error_to_string e);
                           Log Debug ("No messages found for query: " ++
                                      query job ++ " Reason: " ++
                                      "Unsupported pattern: " ++
                                      error_to_string e)]))).
Proof.
  intros Haccept Hadd queryHash request failed.
  split; [|split].
  - intros Hfetch. unfold runJob. rewrite Haccept. cbn [fst negb].
    rewrite (persistedHashes_add_answer _ _ _ _ _ Hadd). cbn [negb].
    unfold fetchAndExtract, fetchDocument. fold request. rewrite Hfetch. simpl.
    unfold persistedHashes_delete, emit. simpl. now rewrite <- !app_assoc.
  - intros html Hfetch Hparse. unfold runJob. rewrite Haccept. cbn [fst negb].
    rewrite (persistedHashes_add_answer _ _ _ _ _ Hadd). cbn [negb].
    unfold fetchAndExtract, fetchDocument. fold request. rewrite Hfetch, Hparse. simpl.
    unfold persistedHashes_delete, emit. simpl. now rewrite <- !app_assoc.
  - intros html doc Hfetch Hparse Hextract. unfold runJob.
    rewrite Haccept. cbn [fst negb].
    rewrite (persistedHashes_add_answer _ _ _ _ _ Hadd). cbn [negb].
    unfold fetchAndExtract, fetchDocument. fold request. rewrite Hfetch, Hparse, Hextract.
    simpl. unfold discard, emit. simpl. now rewrite <- !app_assoc.
Qed.

End JobProperties.


(** * The properties on the concrete page *)


Lemma runSelector_href_witness :
  selectElem Fixture.page (Some "#rellink") = Ok (Some Fixture.rellinkNode)
  /\ runSelector Fixture.page (Some "#rellink") "href" Fixture.pageUrl
     = Ok (VStr "http://example.test/foo?bar=42")
  /\ @runSelector Fixture.Node Fixture.dom2 Fixture.env Fixture.page (Some "#rellink") "href"
       Fixture.pageUrl
     = runSelector Fixture.page (Some "#rellink") "href" Fixture.pageUrl.
Proof.
  pose proof (runSelector_href_resolves_raw_attribute Fixture.dom Fixture.env Fixture.page
                Fixture.rellinkNode (Some "#rellink") Fixture.pageUrl eq_refl)
    as [Hhref Hparser].
  split; [reflexivity|]. split.
  - rewrite Hhref. reflexivity.
  - apply (Hparser Fixture.dom2 Fixture.rellinkNode); reflexivity.
Defined.

Lemma all_group_arrays_witness :
  exists values,
    Fixture.listFound !! "li" ≫= (.!! "text") = Some (VArr values)
    /\ length values = 3.
Proof.
  assert (Hnd : List.NoDup (obj_keys Fixture.listInput)).
  { constructor; [intros [] | constructor]. }
  assert (Hev : evalInput Fixture.page Fixture.pageUrl Fixture.listInput = Ok Fixture.listFound).
  { vm_compute. reflexivity. }
  destruct (all_group_arrays_have_root_length Fixture.page Fixture.pageUrl
              Fixture.listInput Fixture.listFound "li" Fixture.listGroup Fixture.listFields
              Fixture.listItems Hnd Hev (or_introl eq_refl) eq_refl eq_refl eq_refl)
    as [Hdeclared Hlength].
  destruct (Hdeclared "text" (or_introl eq_refl)) as [values Hvalues].
  exists values. split; [exact Hvalues|].
  destruct (Hlength "text" _ Hvalues) as (vs & Heq & Hlen).
  injection Heq as <-. exact Hlen.
Defined.

Lemma all_type_field_witness :
  assembleField Fixture.listInput Fixture.listFound [] "list-action" [] Fixture.itemsField
  = Ok (Assigned
          [("items",
            VObj [("0", VObj [("text", VStr "one"); ("tag", VNull)]);
                  ("1", VObj [("text", VStr "three"); ("tag", VNull)])])]).
Proof.
  assert (Hndi : List.NoDup (obj_keys Fixture.listInput)).
  { constructor; [intros [] | constructor]. }
  assert (Hev : evalInput Fixture.page Fixture.pageUrl Fixture.listInput = Ok Fixture.listFound).
  { vm_compute. reflexivity. }
  assert (Hnd : List.NoDup (obj_keys Fixture.listFields)).
  { constructor; [intros [H|[]]; discriminate H|].
    constructor; [intros [] | constructor]. }
  destruct (all_type_field_merges_arrays Fixture.page Fixture.pageUrl Fixture.listInput
              Fixture.listFound [] "list-action" [] Fixture.itemsField "li"
              Fixture.listGroup Fixture.listFields Fixture.listItems Hndi Hev
              eq_refl eq_refl eq_refl eq_refl eq_refl Hnd eq_refl)
    as (column & Hcolumn & Hfield).
  rewrite Hfield.
  pose proof (Hcolumn "text" _ (or_introl eq_refl)) as Htext.
  pose proof (Hcolumn "tag" _ (or_intror (or_introl eq_refl))) as Htag.
  vm_compute in Htext, Htag.
  injection Htext as Htext. injection Htag as Htag.
  unfold arrayMergedField, zipEntries, zipEntry, zipLength. simpl.
  rewrite <- Htext, <- Htag. reflexivity.
Defined.

Lemma unknown_transform_witness :
  (exists e,
     extractMessages Fixture.unknownRules "de" Fixture.page (VStr "some-query")
       "example-test" Fixture.pageUrl = Throw e
     /\ isPermanentError e = true)
  /\ (exists e,
        extractMessages Fixture.unknownAlternativeRules "de" Fixture.page
          (VStr "some-query") "example-test" Fixture.pageUrl = Throw e
        /\ isPermanentError e = true).
Proof.
  split.
  - assert (Hreach : reachesField Fixture.page Fixture.pageUrl
                       (default [] (input Fixture.unknownRule))
                       Fixture.unknownDef Fixture.firstItem).
    { exists [], "li", Fixture.unknownGroup, [], ∅, [], "title", [].
      eexists. split; [reflexivity|]. split; [reflexivity|].
      left. split; [reflexivity|]. split; reflexivity. }
    destruct (proj1
      (unknown_transform_raises_permanent_error Fixture.unknownRules "de"
         Fixture.page Fixture.page (VStr "some-query") "example-test"
         Fixture.pageUrl Fixture.unknownRule Fixture.unknownDef
         Fixture.firstItem eq_refl eq_refl Hreach
         (or_intror (ex_intro _ (VStr "one")
                       (conj eq_refl (conj eq_refl eq_refl))))))
      as (e & _ & Hperm & Hthrow).
    exists e. now split.
  - assert (Hreach : reachesField Fixture.page Fixture.pageUrl
                       (default [] (input Fixture.unknownAlternativeRule))
                       Fixture.unknownAlternativeDef Fixture.firstItem).
    { exists [], "li", Fixture.unknownAlternativeGroup, [], ∅, [], "title", [].
      eexists. split; [reflexivity|]. split; [reflexivity|].
      left. split; [reflexivity|]. split; reflexivity. }
    assert (Hwinner :
              exists before alt after m,
                firstMatch Fixture.unknownAlternativeDef
                = Some (before ++ alt :: after)
                /\ Forall (fun a => exists v,
                             runSelector Fixture.firstItem (select a) (attr a)
                               Fixture.pageUrl = Ok v
                             /\ is_nullish v = true) before
                /\ runSelector Fixture.firstItem (select alt) (attr alt)
                     Fixture.pageUrl = Ok m
                /\ is_nullish m = false
                /\ referencesUnknown (transform alt) = true).
    { exists [Fixture.missingAlternative], Fixture.unknownAlternative, [],
        (VStr "one").
      split; [reflexivity|]. split.
      - constructor; [|constructor]. exists VNull. split; reflexivity.
      - split; [reflexivity|]. split; reflexivity. }
    destruct (proj1
      (unknown_transform_raises_permanent_error Fixture.unknownAlternativeRules
         "de" Fixture.page Fixture.page (VStr "some-query") "example-test"
         Fixture.pageUrl Fixture.unknownAlternativeRule
         Fixture.unknownAlternativeDef Fixture.firstItem eq_refl eq_refl
         Hreach (or_introl Hwinner)))
      as (e & _ & Hperm & Hthrow).
    exists e. now split.
Defined.

Lemma context_field_witness :
  assembleField [] ∅ (mkContext VNull Fixture.pageUrl "de") "test-action" []
    (Fixture.contextField "q" true)
  = Ok (Assigned [("q", VNull)])
  /\ assembleField [] ∅ (mkContext (VStr EmptyString) Fixture.pageUrl "de")
       "test-action" [] (Fixture.contextField "q" false)
     = Ok (Assigned []).
Proof.
  split.
  - exact (proj1 (context_field_keeps_action_eligible [] ∅
                    (mkContext VNull Fixture.pageUrl "de") "test-action" []
                    (Fixture.contextField "q" true) eq_refl) eq_refl eq_refl).
  - exact (proj1 (proj2 (context_field_keeps_action_eligible [] ∅
                    (mkContext (VStr EmptyString) Fixture.pageUrl "de")
                    "test-action" [] (Fixture.contextField "q" false) eq_refl))
             eq_refl eq_refl).
Defined.

Lemma firstMatch_chains_witness :
  evalField Fixture.pageUrl Fixture.firstMatchDef Fixture.bodyNode
  = Ok (VStr "padded")
  /\ evalField Fixture.pageUrl Fixture.plainChainDef Fixture.bodyNode
     = Ok (VStr "x")
  /\ Fixture.firstMatchFound !! "body" ≫= (.!! "text") = Some (VStr "padded").
Proof.
  assert (Hnd : List.NoDup (obj_keys Fixture.firstMatchInput)).
  { constructor; [intros [] | constructor]. }
  assert (Hev : evalInput Fixture.page Fixture.pageUrl Fixture.firstMatchInput
                = Ok Fixture.firstMatchFound).
  { vm_compute. reflexivity. }
  destruct (firstMatch_runs_both_transform_chains Fixture.page Fixture.pageUrl
              Fixture.firstMatchInput Fixture.firstMatchFound "body"
              Fixture.firstMatchGroup Hnd Hev (or_introl eq_refl))
    as (Hfield & Hfirst & _).
  split; [|split].
  - assert (Hlosers :
              Forall (fun a => exists r,
                        runSelector Fixture.bodyNode (select a) (attr a)
                          Fixture.pageUrl = Ok r
                        /\ is_nullish r = true) [Fixture.missingAlternative]).
    { constructor; [|constructor]. exists VNull. split; reflexivity. }
    destruct (Hfield Fixture.bodyNode Fixture.firstMatchDef _ eq_refl)
      as [Hwinner _].
    destruct (Hwinner [Fixture.missingAlternative] Fixture.paddedAlternative []
                (VStr "Some text to extract") _ eq_refl Hlosers eq_refl
                eq_refl eq_refl)
      as [_ Hboth].
    exact (Hboth eq_refl).
  - destruct (Hfield Fixture.bodyNode Fixture.plainChainDef _ eq_refl)
      as [_ Hplain].
    exact (Hplain (VStr "Some text to extract") eq_refl eq_refl).
  - assert (Hndf : List.NoDup (obj_keys [("text", Fixture.firstMatchDef)])).
    { constructor; [intros [] | constructor]. }
    destruct (Hfirst [("text", Fixture.firstMatchDef)] Fixture.bodyNode "text"
                Fixture.firstMatchDef eq_refl eq_refl Hndf (or_introl eq_refl))
      as (v & Hv & Hstored).
    vm_compute in Hv. injection Hv as <-. exact Hstored.
Defined.

(** Self-listed actions are not protected: the only message of this
    extraction lists its own action in [omitIfExistsAny], no other action
    is emitted, and the filter drops it. *)
Lemma self_listed_message_is_dropped :
  forEachM (assembleAction [] ∅ (mkContext (VStr "some-query") Fixture.pageUrl "de"))
    Fixture.selfOmitOutput []
  = Ok [Fixture.selfMessage]
  /\ extractMessages Fixture.selfOmitRules "de" Fixture.page (VStr "some-query")
       "example-test" Fixture.pageUrl = Ok []
  /\ ~ (forall msg,
          In msg [Fixture.selfMessage] ->
          In (Body.action (Message.body msg))
             (omitList Fixture.selfOmitOutput (Body.action (Message.body msg))) ->
          ~ In msg (filterRedundant Fixture.selfOmitOutput [Fixture.selfMessage]) ->
          exists other x,
            other <> Body.action (Message.body msg)
            /\ In other (omitList Fixture.selfOmitOutput
                           (Body.action (Message.body msg)))
            /\ In x [Fixture.selfMessage]
            /\ Body.action (Message.body x) = other).
Proof.
  split; [reflexivity|]. split; [reflexivity|].
  intros Hclaim.
  destruct (Hclaim Fixture.selfMessage (or_introl eq_refl) (or_introl eq_refl))
    as (other & x & Hother & _ & Hx & Hact).
  - intros [].
  - destruct Hx as [<-|[]]. apply Hother. symmetry. exact Hact.
Qed.

Lemma redundancy_filter_witness :
  extractMessages Fixture.selfOmitRules "de" Fixture.page (VStr "some-query")
    "example-test" Fixture.pageUrl
  = Ok (filterRedundant Fixture.selfOmitOutput [Fixture.selfMessage])
  /\ ~ In Fixture.selfMessage (filterRedundant Fixture.selfOmitOutput [Fixture.selfMessage]).
Proof.
  assert (Hassembled :
            forEachM (assembleAction (default [] (input Fixture.selfOmitRule)) ∅
                        (mkContext (VStr "some-query") Fixture.pageUrl "de"))
              (default [] (output Fixture.selfOmitRule)) []
            = Ok [Fixture.selfMessage]).
  { reflexivity. }
  destruct (redundancy_filter_single_pass Fixture.selfOmitRules "de" Fixture.page
              Fixture.page (VStr "some-query") "example-test" Fixture.pageUrl
              Fixture.selfOmitRule ∅ [Fixture.selfMessage]
              eq_refl eq_refl eq_refl Hassembled)
    as (Hextract & _ & Hself).
  split; [exact Hextract|].
  exact (Hself Fixture.selfMessage (or_introl eq_refl) (or_introl eq_refl)).
Defined.

(** The empty string is not coerced: the optional field [title] has the
    empty string as its extracted value, which is absent, and it is
    assigned the empty string, not [null]. *)
Lemma optional_empty_string_is_not_null :
  evalInput Fixture.page Fixture.pageUrl Fixture.linkInput = Ok Fixture.linkFound
  /\ found_read Fixture.linkFound "body" "title" = Ok (VStr EmptyString)
  /\ isPresent (VStr EmptyString) = false
  /\ assembleField Fixture.linkInput Fixture.linkFound
       (mkContext (VStr "some-query") Fixture.pageUrl "de") "title-action" []
       Fixture.optionalTitle
     = Ok (Assigned [("title", VStr EmptyString)])
  /\ assembleField Fixture.linkInput Fixture.linkFound
       (mkContext (VStr "some-query") Fixture.pageUrl "de") "title-action" []
       Fixture.optionalTitle
     <> Ok (Assigned [("title", VNull)]).
Proof.
  split; [vm_compute; reflexivity|].
  split; [reflexivity|]. split; [reflexivity|].
  split; [reflexivity|]. discriminate.
Qed.

Lemma first_type_field_witness :
  extractMessages Fixture.linkRules "de" Fixture.page (VStr "some-query")
    "example-test" Fixture.pageUrl = Ok [Fixture.titleMessage]
  /\ List.Forall
       (fun msg => Body.action (Message.body msg) <> "missing-action")
       [Fixture.titleMessage].
Proof.
  assert (Hev : evalInput Fixture.page Fixture.pageUrl (default [] (input Fixture.linkRule))
                = Ok Fixture.linkFound).
  { vm_compute. reflexivity. }
  assert (Hextract : extractMessages Fixture.linkRules "de" Fixture.page
                       (VStr "some-query") "example-test" Fixture.pageUrl
                     = Ok [Fixture.titleMessage]).
  { reflexivity. }
  split; [exact Hextract|].
  destruct (first_type_field_required_or_assigned Fixture.linkRules "de" Fixture.page
              Fixture.page (VStr "some-query") "example-test" Fixture.pageUrl
              Fixture.linkRule Fixture.linkFound "missing-action" Fixture.missingSchema
              Fixture.requiredMissing "body" Fixture.linkGroup Fixture.linkFields
              eq_refl eq_refl Hev eq_refl eq_refl eq_refl eq_refl)
    as (value & Hread & _ & _ & _ & Hdiscard).
  vm_compute in Hread. injection Hread as <-.
  apply List.Forall_forall. intros msg Hmsg.
  apply (Hdiscard eq_refl eq_refl) with (messages := [Fixture.titleMessage]).
  - constructor; [intros [H|[]]; discriminate H|].
    constructor; [intros [] | constructor].
  - right. left. reflexivity.
  - right. left. reflexivity.
  - exact Hextract.
  - exact Hmsg.
Defined.

Lemma cooldown_gate_witness :
  @runJob Fixture.Node HashStore.t Fixture.dom Fixture.env
    (Fixture.collaborators Fixture.dummyRules (Ok "<html>") (Ok Fixture.page))
    Fixture.job Fixture.seenWorld
  = (Ok (mkJobResult [] (Some "Query has been recently seen.")),
     mkWorld (persistedHashes Fixture.seenWorld)
       [HashAdd Fixture.jobHash 86400000;
        Log Debug ("No messages found for query: " ++ query Fixture.job ++
                   " Reason: " ++ "Query has been recently seen.")])
  /\ exists rest,
       events (snd (@runJob Fixture.Node HashStore.t Fixture.dom Fixture.env
                      (Fixture.collaborators Fixture.dummyRules (Ok "<html>")
                         (Ok Fixture.page))
                      Fixture.job Fixture.emptyWorld))
       = HashAdd Fixture.jobHash 86400000 :: rest.
Proof.
  assert (Hseen : @hashesAdd Fixture.Node HashStore.t
                    (Fixture.collaborators Fixture.dummyRules (Ok "<html>")
                       (Ok Fixture.page))
                    Fixture.jobHash 86400000
                    (persistedHashes Fixture.seenWorld)
                  = (Ok false, persistedHashes Fixture.seenWorld)).
  { vm_compute. reflexivity. }
  split.
  - exact (proj2
      (@cooldown_gate_finishes_seen_query_empty Fixture.Node HashStore.t
         Fixture.dom Fixture.env
         (Fixture.collaborators Fixture.dummyRules (Ok "<html>")
            (Ok Fixture.page))
         Fixture.job Fixture.seenWorld) "blocked"
      (persistedHashes Fixture.seenWorld) eq_refl Hseen).
  - destruct (proj1
      (@cooldown_gate_finishes_seen_query_empty Fixture.Node HashStore.t
         Fixture.dom Fixture.env
         (Fixture.collaborators Fixture.dummyRules (Ok "<html>")
            (Ok Fixture.page))
         Fixture.job Fixture.emptyWorld))
      as (calls & Hcalls & _ & _ & Hfirst).
    destruct (Hfirst "blocked" eq_refl) as (rest & Hrest).
    exists rest. rewrite Hcalls, Hrest. reflexivity.
Defined.

Lemma fetch_error_witness :
  @runJob Fixture.Node HashStore.t Fixture.dom Fixture.env
    (Fixture.collaborators Fixture.dummyRules (Throw Fixture.networkError) (Ok Fixture.page))
    Fixture.job Fixture.emptyWorld
  = (Throw Fixture.networkError,
     mkWorld (HashStore.delete Fixture.jobHash {[Fixture.jobHash := 86400000%Z]})
       [HashAdd Fixture.jobHash 86400000;
        HttpGet (doublefetchRequest Fixture.job);
        Log Info ("Failed to fetch query: " ++ Fixture.pageUrl ++ " " ++
                  error_to_string Fixture.networkError);
        HashDelete Fixture.jobHash])
  /\ HashStore.delete Fixture.jobHash {[Fixture.jobHash := 86400000%Z]}
     = persistedHashes Fixture.emptyWorld.
Proof.
  assert (Hnew : @hashesAdd Fixture.Node HashStore.t
                   (Fixture.collaborators Fixture.dummyRules
                      (Throw Fixture.networkError) (Ok Fixture.page))
                   Fixture.jobHash 86400000
                   (persistedHashes Fixture.emptyWorld)
                 = (Ok true, {[Fixture.jobHash := 86400000%Z]})).
  { vm_compute. reflexivity. }
  split.
  - exact (proj1
      (@fetch_error_propagates_extraction_error_is_swallowed Fixture.Node
         HashStore.t Fixture.dom Fixture.env
         (Fixture.collaborators Fixture.dummyRules (Throw Fixture.networkError)
            (Ok Fixture.page))
         Fixture.job Fixture.emptyWorld "blocked"
         {[Fixture.jobHash := 86400000%Z]}
         Fixture.networkError eq_refl Hnew) eq_refl).
  - vm_compute. reflexivity.
Defined.


(** * Further properties of the extractor *)

(** ** Selector evaluator and transform chain *)

Section SelectorFacts.

Context {Elem : Type} `{DomOps : Dom Elem} `{EnvOps : Env}.

Lemma runSelector_shape (item : Elem) (selector : option string)
    (attribute baseURI : string) (v : Value) :
  runSelector item selector attribute baseURI = Ok v ->
  v = VNull \/ exists s, v = VStr s.
Proof.
  unfold runSelector.
  destruct (selectElem item selector) as [[elem|]|e]; simpl;
    [| intros [= <-]; now left | discriminate].
  destruct (String.eqb attribute "textContent");
    [intros [= <-]; right; eauto|].
  destruct (String.eqb attribute "href").
  - destruct (getAttribute elem "href") as [rawLink|];
      [| intros [= <-]; now left].
    destruct rawLink as [|c rest]; simpl; [intros [= <-]; now left|].
    destruct (URL_href (String c rest) baseURI) as [href|e]; simpl;
      [|discriminate].
    intros [= <-]. right. eauto.
  - destruct (hasAttribute elem attribute); [| intros [= <-]; now left].
    destruct (getAttribute elem attribute); intros [= <-]; [right; eauto | now left].
Qed.

(** X1. Whenever [runSelector] answers, the answer is a string or [null],
    never [undefined]; hence the [?? null] of [findFirstMatch] changes
    nothing and, for a definition without [firstMatch], [findFirstMatch]
    is [runSelector] on its [select] and [attr]. *)
Theorem runSelector_answers_string_or_null (item : Elem)
    (selector : option string) (attribute baseURI : string) (v : Value) :
  runSelector item selector attribute baseURI = Ok v ->
  (v = VNull \/ exists s, v = VStr s)
  /\ or_null v = v
  /\ forall def,
       firstMatch def = None ->
       select (single def) = selector ->
       attr (single def) = attribute ->
       findFirstMatch item def baseURI = Ok v.
Proof.
  intros Hrun. pose proof (runSelector_shape _ _ _ _ _ Hrun) as Hshape.
  assert (Hv : or_null v = v) by (destruct Hshape as [->|[s ->]]; reflexivity).
  split; [exact Hshape|]. split; [exact Hv|].
  intros def Hfm <- <-. unfold findFirstMatch. rewrite Hfm, Hrun. simpl.
  now rewrite Hv.
Qed.

Lemma applySteps_app (value : Value) (steps1 steps2 : list Value) :
  applySteps value (steps1 ++ steps2)
  = let* v := applySteps value steps1 in applySteps v steps2.
Proof.
  revert value. induction steps1 as [|step steps1 IH]; intros value; simpl;
    [reflexivity|].
  destruct step; try reflexivity.
  destruct (lookupBuiltinTransform (hd VUndefined items)) as [t|e]; simpl;
    [apply IH | reflexivity].
Qed.

(** X2. Running a chain and then a second chain on its result is running
    the concatenated chain, as long as the value in between is not [null]:
    the chain of a [firstMatch] alternative followed by the chain of the
    definition behaves like one chain. *)
Theorem transform_chains_compose (value between : Value)
    (steps1 steps2 : list Value) :
  is_nullish value = false ->
  runTransforms value (Some (VArr steps1)) = Ok between ->
  is_nullish between = false ->
  runTransforms value (Some (VArr (steps1 ++ steps2)))
  = runTransforms between (Some (VArr steps2)).
Proof.
  intros Hvalue Hfirst Hbetween.
  unfold runTransforms in *. simpl in *. rewrite Hvalue in *.
  rewrite Hbetween, applySteps_app.
  destruct (applySteps value steps1) as [v|e]; simpl in *; [|discriminate].
  injection Hfirst as Hv. unfold or_null in Hv.
  destruct (is_nullish v) eqn:Hnull; [subst between; discriminate|].
  now subst v.
Qed.

Lemma applySteps_Throw (value : Value) (steps : list Value) (e : JsError) :
  applySteps value steps = Throw e -> isPermanentError e = true.
Proof.
  revert value. induction steps as [|step steps IH]; intros value; simpl;
    [discriminate|].
  destruct step; try (intros [= <-]; reflexivity).
  destruct (lookupBuiltinTransform (hd VUndefined items)) as [t|e'] eqn:Hlk;
    simpl.
  - apply IH.
  - intros [= <-]. now apply lookupBuiltinTransform_Throw in Hlk.
Qed.

Lemma runTransforms_Throw (value : Value) (transformSteps : option Value)
    (e : JsError) :
  runTransforms value transformSteps = Throw e -> isPermanentError e = true.
Proof.
  unfold runTransforms.
  destruct (default (VArr []) transformSteps);
    try (intros [= <-]; reflexivity).
  destruct (is_nullish value); [discriminate|].
  destruct (applySteps value items) as [v|e'] eqn:Hsteps; simpl; [discriminate|].
  intros [= <-]. now apply applySteps_Throw in Hsteps.
Qed.

(** X3. [runTransforms] never answers [undefined]; on a [null] or
    [undefined] value it answers [null] whatever the steps of an array of
    steps are, and it raises an error, which is permanent, when the
    definitions are not an array, also on such a value.  Every error it
    raises is permanent. *)
Theorem runTransforms_outcome (value : Value) (transformSteps : option Value) :
  (forall r, runTransforms value transformSteps = Ok r ->
     r <> VUndefined /\ (is_nullish value = true -> r = VNull))
  /\ (forall e, runTransforms value transformSteps = Throw e ->
        isPermanentError e = true)
  /\ (is_nullish value = true ->
      match default (VArr []) transformSteps with
      | VArr _ => runTransforms value transformSteps = Ok VNull
      | _ => exists e, runTransforms value transformSteps = Throw e
      end).
Proof.
  split; [|split].
  - intros r. unfold runTransforms.
    destruct (default (VArr []) transformSteps); try discriminate.
    destruct (is_nullish value).
    + intros [= <-]. now split.
    + destruct (applySteps value items) as [v|e]; simpl; [|discriminate].
      intros [= <-]. split; [|discriminate].
      unfold or_null. now destruct v.
  - apply runTransforms_Throw.
  - intros Hnull. unfold runTransforms.
    destruct (default (VArr []) transformSteps); eauto.
    now rewrite Hnull.
Qed.

Lemma firstMatchLoop_no_match (item : Elem) (baseURI : string)
    (alternatives : list SelectRule) :
  Forall (fun a => exists r, runSelector item (select a) (attr a) baseURI = Ok r
                             /\ is_nullish r = true) alternatives ->
  firstMatchLoop item alternatives baseURI = Ok VNull.
Proof.
  intros Hall. induction Hall as [|a alternatives (r & Hr & Hnull) _ IH];
    simpl; [reflexivity|].
  rewrite Hr. simpl. now rewrite (or_null_nullish r Hnull).
Qed.

(** X4. When no alternative of a [firstMatch] definition selects a value
    (in particular when there is no alternative), [findFirstMatch] answers
    [null] and the field is [null]: the steps of the definition's own
    chain are not looked at. *)
Theorem firstMatch_without_match_is_null (item : Elem) (baseURI : string)
    (def : SelectorDef) (alternatives : list SelectRule) :
  firstMatch def = Some alternatives ->
  Forall (fun a => exists r, runSelector item (select a) (attr a) baseURI = Ok r
                             /\ is_nullish r = true) alternatives ->
  findFirstMatch item def baseURI = Ok VNull
  /\ match default (VArr []) (transform (single def)) with
     | VArr _ => evalField baseURI def item = Ok VNull
     | _ => exists e, evalField baseURI def item = Throw e
                      /\ isPermanentError e = true
     end.
Proof.
  intros Hfm Hall.
  assert (Hfind : findFirstMatch item def baseURI = Ok VNull).
  { unfold findFirstMatch. rewrite Hfm. now apply firstMatchLoop_no_match. }
  split; [exact Hfind|].
  unfold evalField. rewrite Hfind. simpl. unfold runTransforms.
  destruct (default (VArr []) (transform (single def))); eauto.
Qed.

End SelectorFacts.


(** ** Errors of the extraction *)

Lemma forEachM_Throw {A St} (body : St -> A -> Result St) (l : list A)
    (s : St) (e : JsError) :
  forEachM body l s = Throw e ->
  exists s' x, In x l /\ body s' x = Throw e.
Proof.
  revert s. induction l as [|x l IH]; intros s; simpl; [discriminate|].
  destruct (body s x) as [s'|e'] eqn:Hbody; simpl.
  - intros Hrest. destruct (IH _ Hrest) as (s'' & y & Hy & Hthrow). eauto.
  - intros [= <-]. eauto.
Qed.

Lemma mapM_Throw {A B} (f : A -> Result B) (l : list A) (e : JsError) :
  mapM f l = Throw e -> exists x, In x l /\ f x = Throw e.
Proof.
  induction l as [|x l IH]; simpl; [discriminate|].
  destruct (f x) as [y|e'] eqn:Hf; simpl.
  - destruct (mapM f l) as [ys|e'']; simpl; [discriminate|].
    intros [= <-]. destruct (IH eq_refl) as (x' & Hx' & Hthrow). eauto.
  - intros [= <-]. eauto.
Qed.

Section ExtractionErrors.

Context {Elem : Type} `{DomOps : Dom Elem} `{EnvOps : Env}.

(** X5. A prune directive that has neither [first] nor [all] makes
    [extractMessages] raise the permanent error [Bad prune rule], once the
    directives before it have been carried out; no input is evaluated. *)
Theorem bad_prune_rule_raises_permanent_error (rules : JsObject Rule)
    (ctry : string) (doc doc1 : Elem) (query : Value) (category url : string)
    (r : Rule) (pre : Preprocess) (before after : list PruneRule.t)
    (bad : PruneRule.t) :
  obj_lookup category rules = Some r ->
  preprocess r = Some pre ->
  prune pre = Some (before ++ bad :: after) ->
  forEachM pruneStep before doc = Ok doc1 ->
  truthy_string (PruneRule.first bad) = false ->
  truthy_string (PruneRule.all bad) = false ->
  exists e,
    extractMessages rules ctry doc query category url = Throw e
    /\ e = BadPatternError
             ("Bad prune rule (expected " ++ dquote ++ "first" ++ dquote ++
              " or " ++ dquote ++ "all" ++ dquote ++ ")")
    /\ isPermanentError e = true.
Proof.
  intros Hrule Hpre Hprune Hbefore Hfirst Hall.
  eexists. split; [|split; reflexivity].
  unfold extractMessages. rewrite Hrule.
  unfold runPrune. rewrite Hpre. simpl. rewrite Hprune. simpl.
  rewrite forEachM_app, Hbefore. cbn [bind forEachM].
  unfold pruneStep at 1. rewrite Hfirst, Hall. reflexivity.
Qed.

(** X6. An input group that has neither [first] nor [all] makes
    [extractMessages] raise the permanent error [Bad selector], once the
    groups before it have been evaluated. *)
Theorem bad_input_group_raises_permanent_error (rules : JsObject Rule)
    (ctry : string) (doc doc' : Elem) (query : Value) (category url : string)
    (r : Rule) (before after : JsObject InputGroup) (selector : string)
    (group : InputGroup) (found0 : Found) :
  obj_lookup category rules = Some r ->
  runPrune doc (preprocess r) = Ok doc' ->
  input r = Some (before ++ (selector, group) :: after) ->
  forEachM (evalGroup doc' url) before ∅ = Ok found0 ->
  first group = None ->
  all group = None ->
  exists e,
    extractMessages rules ctry doc query category url = Throw e
    /\ e = BadPatternError
             ("Bad selector (expected " ++ dquote ++ "first" ++ dquote ++
              " or " ++ dquote ++ "all" ++ dquote ++ ")")
    /\ isPermanentError e = true.
Proof.
  intros Hrule Hprune Hinput Hbefore Hfirst Hall.
  eexists. split; [|split; reflexivity].
  unfold extractMessages. rewrite Hrule, Hprune. cbn [bind].
  unfold evalInput. rewrite Hinput. simpl default.
  rewrite forEachM_app, Hbefore. cbn [bind forEachM].
  unfold evalGroup at 1. rewrite Hfirst, Hall. reflexivity.
Qed.

Lemma assembleFields_app (input : JsObject InputGroup) (found : Found)
    (context : JsObject Value) (action : string)
    (fields1 fields2 : list OutputField) (payload : JsObject Value) :
  assembleFields input found context action (fields1 ++ fields2) payload
  = let* outcome := assembleFields input found context action fields1 payload in
    match outcome with
    | Assigned payload' =>
        assembleFields input found context action fields2 payload'
    | NextAction => Ok NextAction
    end.
Proof.
  revert payload. induction fields1 as [|f fields1 IH]; intros payload;
    [reflexivity|].
  cbn [app assembleFields].
  destruct (assembleField input found context action payload f)
    as [[payload'|]|e]; simpl; [apply IH | reflexivity | reflexivity].
Qed.

(** X7. An output field whose [source] is not a key of the input, and
    does not name a member that the input inherits from
    [Object.prototype], makes [extractMessages] raise the permanent error
    [references invalid input source], once the loops have come to that
    field: the actions before its action have been assembled and the
    fields before it have not discarded the action.  (For the name of an
    inherited member [input[source]] is not falsy, and the code goes on to
    its other error.) *)
Theorem unknown_source_raises_permanent_error (rules : JsObject Rule)
    (ctry : string) (doc doc' : Elem) (query : Value) (category url : string)
    (r : Rule) (found : Found) (before after : JsObject OutputSchema)
    (action : string) (schema : OutputSchema) (assembled : list Message.t)
    (fieldsBefore fieldsAfter : list OutputField) (field : OutputField)
    (payload : JsObject Value) (src : string) :
  obj_lookup category rules = Some r ->
  runPrune doc (preprocess r) = Ok doc' ->
  evalInput doc' url (default [] (input r)) = Ok found ->
  output r = Some (before ++ (action, schema) :: after) ->
  forEachM (assembleAction (default [] (input r)) found
              (mkContext query url ctry)) before [] = Ok assembled ->
  fields schema = fieldsBefore ++ field :: fieldsAfter ->
  assembleFields (default [] (input r)) found (mkContext query url ctry)
    action fieldsBefore [] = Ok (Assigned payload) ->
  source field = Some src ->
  truthy_string (Some src) = true ->
  obj_lookup src (default [] (input r)) = None ->
  inherited src = false ->
  forallb (fun k => negb (inherited k)) (obj_keys (default [] (input r)))
  = true ->
  exists e,
    extractMessages rules ctry doc query category url = Throw e
    /\ e = BadPatternError ("Output rule for action=" ++ action ++
                            " references invalid input source=" ++ src)
    /\ isPermanentError e = true.
Proof.
  intros Hrule Hprune Hev Houtput Hbefore Hfields Hpayload Hsource Htruthy
    Hlookup _ _.
  eexists. split; [|split; reflexivity].
  unfold extractMessages. rewrite Hrule, Hprune. cbn [bind].
  rewrite Hev. cbn [bind]. rewrite Houtput. simpl default.
  rewrite forEachM_app, Hbefore. cbn [bind forEachM].
  unfold assembleAction at 1.
  rewrite Hfields, assembleFields_app, Hpayload. cbn [bind assembleFields].
  unfold assembleField at 1. rewrite Hsource, Htruthy. simpl default.
  rewrite Hlookup. reflexivity.
Qed.

(** *** Where the errors of [extractMessages] come from *)

Lemma selectElem_Throw (item : Elem) (selector : option string) (e : JsError) :
  selectElem item selector = Throw e -> PlatformError e.
Proof.
  unfold selectElem. destruct selector as [[|c rest]|]; simpl; try discriminate.
  intros H. left. eauto.
Qed.

Lemma runSelector_Throw (item : Elem) (selector : option string)
    (attribute baseURI : string) (e : JsError) :
  runSelector item selector attribute baseURI = Throw e -> PlatformError e.
Proof.
  unfold runSelector.
  destruct (selectElem item selector) as [[elem|]|e'] eqn:Hsel; simpl;
    [| discriminate | intros [= <-]; now apply selectElem_Throw in Hsel].
  destruct (String.eqb attribute "textContent"); [discriminate|].
  destruct (String.eqb attribute "href").
  - destruct (getAttribute elem "href") as [[|c rest]|]; simpl;
      try discriminate.
    destruct (URL_href (String c rest) baseURI) as [href|e'] eqn:Hurl; simpl;
      [discriminate|].
    intros [= <-]. right. right. eauto.
  - destruct (hasAttribute elem attribute); discriminate.
Qed.

Lemma firstMatchLoop_Throw (item : Elem) (alternatives : list SelectRule)
    (baseURI : string) (e : JsError) :
  firstMatchLoop item alternatives baseURI = Throw e -> Classified e.
Proof.
  induction alternatives as [|alt alternatives IH]; simpl; [discriminate|].
  destruct (runSelector item (select alt) (attr alt) baseURI) as [m|e']
    eqn:Hrun; simpl.
  - destruct (negb (is_nullish (or_null m))); [|exact IH].
    intros H. left. now apply runTransforms_Throw in H.
  - intros [= <-]. right. now apply runSelector_Throw in Hrun.
Qed.

Lemma evalField_Throw (baseURI : string) (def : SelectorDef) (item : Elem)
    (e : JsError) :
  evalField baseURI def item = Throw e -> Classified e.
Proof.
  unfold evalField, findFirstMatch.
  destruct (firstMatch def) as [alternatives|].
  - destruct (firstMatchLoop item alternatives baseURI) as [v|e'] eqn:Hloop;
      simpl.
    + intros H. left. now apply runTransforms_Throw in H.
    + intros [= <-]. now apply firstMatchLoop_Throw in Hloop.
  - destruct (runSelector item _ _ baseURI) as [m|e'] eqn:Hrun; simpl.
    + intros H. left. now apply runTransforms_Throw in H.
    + intros [= <-]. right. now apply runSelector_Throw in Hrun.
Qed.

Lemma pruneStep_Throw (doc : Elem) (directive : PruneRule.t) (e : JsError) :
  pruneStep doc directive = Throw e -> Classified e.
Proof.
  unfold pruneStep.
  destruct (truthy_string (PruneRule.first directive)).
  - destruct (querySelector doc _) as [elem|e'] eqn:Hq; simpl; [discriminate|].
    intros [= <-]. right. left. eauto.
  - destruct (truthy_string (PruneRule.all directive)).
    + destruct (querySelectorAll doc _) as [elems|e'] eqn:Hq; simpl;
        [discriminate|].
      intros [= <-]. right. right. left. eauto.
    + intros [= <-]. now left.
Qed.

Lemma groupValues_Throw (doc : Elem) (baseURI selector : string)
    (group : InputGroup) (m : gmap string Value) (e : JsError) :
  groupValues doc baseURI selector group m = Throw e -> Classified e.
Proof.
  unfold groupValues. destruct (first group) as [fieldDefs|].
  - destruct (querySelector doc selector) as [[item|]|e'] eqn:Hq; simpl;
      [| discriminate | intros [= <-]; right; left; eauto].
    destruct (firstGroupValues baseURI item fieldDefs) as [kvs|e1] eqn:Hkvs;
      simpl; [discriminate|].
    intros [= <-]. unfold firstGroupValues in Hkvs.
    apply mapM_Throw in Hkvs. destruct Hkvs as ([k def] & _ & Hthrow).
    simpl in Hthrow.
    destruct (evalField baseURI def item) as [v|e2] eqn:Hfield; simpl in Hthrow;
      [discriminate|].
    injection Hthrow as <-. now apply evalField_Throw in Hfield.
  - destruct (all group) as [fieldDefs|]; [|intros [= <-]; now left].
    destruct (querySelectorAll doc selector) as [[rootItems|]|e'] eqn:Hq; simpl;
      [| discriminate | intros [= <-]; right; right; left; eauto].
    destruct (allGroupValues baseURI rootItems fieldDefs) as [kvs|e1] eqn:Hkvs;
      simpl; [discriminate|].
    intros [= <-]. unfold allGroupValues in Hkvs.
    apply mapM_Throw in Hkvs. destruct Hkvs as ([k def] & _ & Hthrow).
    simpl in Hthrow.
    destruct (mapM (evalField baseURI def) rootItems) as [vs|e2] eqn:Hitems;
      simpl in Hthrow; [discriminate|].
    injection Hthrow as <-. apply mapM_Throw in Hitems.
    destruct Hitems as (item & _ & Hfield). now apply evalField_Throw in Hfield.
Qed.

Lemma evalInput_Throw (doc : Elem) (baseURI : string)
    (input : JsObject InputGroup) (e : JsError) :
  evalInput doc baseURI input = Throw e -> Classified e.
Proof.
  intros H. apply forEachM_Throw in H.
  destruct H as (found & [selector group] & _ & Hgroup).
  rewrite evalGroup_spec in Hgroup.
  destruct (groupValues doc baseURI selector group _) as [m|e'] eqn:Hvalues;
    simpl in Hgroup; [discriminate|].
  injection Hgroup as <-. now apply groupValues_Throw in Hvalues.
Qed.

Lemma assembleField_Throw (doc : Elem) (baseURI : string)
    (input : JsObject InputGroup) (found : Found) (context : JsObject Value)
    (action : string) (payload : JsObject Value) (field : OutputField)
    (e : JsError) :
  List.NoDup (obj_keys input) ->
  evalInput doc baseURI input = Ok found ->
  assembleField input found context action payload field = Throw e ->
  isPermanentError e = true
  \/ (e = TypeError "forEach is not a function"
      /\ exists selector, querySelectorAll doc selector = Ok None).
Proof.
  intros Hnd Hev. unfold assembleField.
  destruct (truthy_string (source field));
    [|destruct (negb (optional field) && _); discriminate].
  set (src := default EmptyString (source field)).
  destruct (obj_lookup src input) as [group|] eqn:Hgroup;
    [|intros [= <-]; now left].
  pose proof (obj_lookup_In _ _ _ Hgroup) as Hin.
  destruct (evalInput_lookup doc baseURI input found src group Hnd Hev Hin)
    as (m & Hm & Hl).
  unfold found_read. rewrite Hl.
  destruct (first group) as [firstDefs|] eqn:Hfirst.
  - simpl. destruct (negb (optional field) && _); discriminate.
  - destruct (all group) as [fieldDefs|] eqn:Hall; [|intros [= <-]; now left].
    destruct (forEachM (mergeColumn found src) (obj_keys fieldDefs) [])
      as [results|e'] eqn:Hmerge; simpl.
    + destruct (_ && negb (optional field)); discriminate.
    + intros [= <-]. right.
      apply forEachM_Throw in Hmerge.
      destruct Hmerge as (results & k & Hk & Hcolumn).
      unfold mergeColumn, found_read in Hcolumn. rewrite Hl in Hcolumn.
      simpl in Hcolumn.
      unfold groupValues in Hm. rewrite Hfirst, Hall in Hm.
      destruct (querySelectorAll doc src) as [[rootItems|]|e2] eqn:Hq;
        simpl in Hm; [| | discriminate].
      * destruct (allGroupValues baseURI rootItems fieldDefs) as [kvs|e3]
          eqn:Hkvs; simpl in Hm; [|discriminate].
        injection Hm as <-.
        destruct (allGroupValues_keys _ _ _ _ Hkvs) as [Hkeys Hvals].
        rewrite <- Hkeys in Hk.
        destruct (insert_all_in kvs ∅ k Hk) as (v & Hv & Hstored).
        destruct (Hvals k v Hv) as (def & vs & _ & -> & _).
        rewrite Hstored in Hcolumn. discriminate.
      * split; [|eauto]. injection Hm as <-.
        rewrite lookup_empty in Hcolumn. simpl in Hcolumn. congruence.
Qed.

Lemma assembleFields_Throw (input : JsObject InputGroup) (found : Found)
    (context : JsObject Value) (action : string) (fields : list OutputField)
    (payload : JsObject Value) (e : JsError) :
  assembleFields input found context action fields payload = Throw e ->
  exists payload' field,
    assembleField input found context action payload' field = Throw e.
Proof.
  revert payload. induction fields as [|f fields IH]; intros payload; simpl;
    [discriminate|].
  destruct (assembleField input found context action payload f)
    as [[payload'|]|e'] eqn:Hf; simpl.
  - apply IH.
  - discriminate.
  - intros [= <-]. eauto.
Qed.

(** X8. Every error that [extractMessages] raises is a permanent error,
    or an error thrown by a DOM query or by the [URL] constructor, or the
    [TypeError] of reading the arrays of an [all] group after
    [querySelectorAll] answered with a falsy value. *)
Theorem extraction_errors_are_permanent_or_platform (rules : JsObject Rule)
    (ctry : string) (doc : Elem) (query : Value) (category url : string)
    (e : JsError) :
  (forall r, obj_lookup category rules = Some r ->
     List.NoDup (obj_keys (default [] (input r)))) ->
  extractMessages rules ctry doc query category url = Throw e ->
  isPermanentError e = true
  \/ PlatformError e
  \/ (err_name e = "TypeError"
      /\ exists d selector, querySelectorAll d selector = Ok None).
Proof.
  intros Hnd. unfold extractMessages.
  destruct (obj_lookup category rules) as [r|] eqn:Hrule; [|discriminate].
  specialize (Hnd r eq_refl).
  destruct (runPrune doc (preprocess r)) as [doc'|e'] eqn:Hprune; simpl.
  - destruct (evalInput doc' url (default [] (input r))) as [found|e1]
      eqn:Hev; simpl.
    + destruct (forEachM _ (default [] (output r)) []) as [assembled|e2]
        eqn:Hasm; simpl; [discriminate|].
      intros [= <-]. apply forEachM_Throw in Hasm.
      destruct Hasm as (messages & [action schema] & _ & Haction).
      unfold assembleAction in Haction.
      destruct (assembleFields _ found _ action (fields schema) [])
        as [[payload|]|e3] eqn:Hfields; simpl in Haction; try discriminate.
      injection Haction as <-. apply assembleFields_Throw in Hfields.
      destruct Hfields as (payload & field & Hfield).
      destruct (assembleField_Throw doc' url _ found _ action payload field _
                  Hnd Hev Hfield) as [Hperm|[Heq [selector Hq]]];
        [now left|].
      right. right. split; [now rewrite Heq | eauto].
    + intros [= <-]. apply evalInput_Throw in Hev.
      destruct Hev as [Hperm|Hplat]; [now left | right; now left].
  - intros [= <-]. unfold runPrune in Hprune. apply forEachM_Throw in Hprune.
    destruct Hprune as (d & directive & _ & Hstep).
    apply pruneStep_Throw in Hstep.
    destruct Hstep as [Hperm|Hplat]; [now left | right; now left].
Qed.

End ExtractionErrors.


(** ** Extraction map, assembler and filter *)





Lemma filter_all_true {A} (p : A -> bool) (l : list A) :
  (forall x, In x l -> p x = true) -> List.filter p l = l.
Proof.
  induction l as [|x l IH]; intros Hall; simpl; [reflexivity|].
  rewrite (Hall x (or_introl eq_refl)). f_equal. apply IH.
  intros y Hy. apply Hall. now right.
Qed.

Lemma List_filter_sublist {A} (p : A -> bool) (l : list A) :
  List.filter p l `sublist_of` l.
Proof.
  induction l as [|x l IH]; simpl; [constructor|].
  destruct (p x); [now apply sublist_skip | now apply sublist_cons].
Qed.

Lemma map_sublist {A B} (f : A -> B) (l1 l2 : list A) :
  l1 `sublist_of` l2 -> map f l1 `sublist_of` map f l2.
Proof.
  induction 1; simpl; [constructor | now apply sublist_skip
                       | now apply sublist_cons].
Qed.

Section AssemblerFacts.

Context {Elem : Type} `{DomOps : Dom Elem} `{EnvOps : Env}.

(** X10. After the rule evaluator has run, the extraction map has an
    entry for exactly the keys of the input. *)
Theorem extraction_map_has_an_entry_per_group (doc : Elem) (baseURI : string)
    (input : JsObject InputGroup) (found : Found) (selector : string) :
  evalInput doc baseURI input = Ok found ->
  is_Some (found !! selector) <-> In selector (obj_keys input).
Proof.
  intros Hev. split.
  - intros Hsome.
    destruct (in_dec String.string_dec selector (obj_keys input)) as [Hin|Hout];
      [assumption|].
    rewrite (evalGroups_frame doc baseURI input ∅ found selector Hev Hout),
      lookup_empty in Hsome.
    now destruct Hsome.
  - intros Hin.
    apply (evalGroups_is_Some doc baseURI input ∅ found selector Hev).
    now left.
Qed.

(** X11. When the root selector of a [first] group matches nothing, the
    group has no field in the extraction map, and an output field that
    refers to the group discards the action, or is assigned [null] when it
    is optional.  The keys of the input and the key of the field do not
    name members of [Object.prototype], which a read of the empty entry
    would find. *)
Theorem first_group_without_match_has_no_field (doc : Elem) (baseURI : string)
    (input : JsObject InputGroup) (found : Found) (context : JsObject Value)
    (action : string) (payload : JsObject Value) (field : OutputField)
    (src : string) (group : InputGroup) (fieldDefs : JsObject SelectorDef) :
  List.NoDup (obj_keys input) ->
  forallb (fun k => negb (inherited k)) (obj_keys input) = true ->
  inherited (key field) = false ->
  evalInput doc baseURI input = Ok found ->
  source field = Some src ->
  truthy_string (Some src) = true ->
  obj_lookup src input = Some group ->
  first group = Some fieldDefs ->
  querySelector doc src = Ok None ->
  found !! src = Some ∅
  /\ assembleField input found context action payload field
     = Ok (if optional field
           then Assigned (obj_set (key field) VNull payload)
           else NextAction).
Proof.
  intros Hnd _ _ Hev Hsource Htruthy Hgroup Hfirst Hnone.
  destruct (evalInput_lookup doc baseURI input found src group Hnd Hev
              (obj_lookup_In _ _ _ Hgroup)) as (m & Hm & Hl).
  unfold groupValues in Hm. rewrite Hfirst, Hnone in Hm. simpl in Hm.
  injection Hm as <-. split; [exact Hl|].
  unfold assembleField. rewrite Hsource, Htruthy. simpl default.
  rewrite Hgroup, Hfirst. unfold found_read. rewrite Hl, lookup_empty. simpl.
  now destruct (optional field).
Qed.

Lemma mergeColumn_empty (found : Found) (src : string) (keys : list string)
    (results : JsArray (JsObject Value)) :
  (forall k, In k keys -> found_read found src k = Ok (VArr [])) ->
  forEachM (mergeColumn found src) keys results = Ok results.
Proof.
  induction keys as [|k keys IH]; intros Hcols; [reflexivity|].
  cbn [forEachM]. unfold mergeColumn at 1.
  rewrite (Hcols k (or_introl eq_refl)). simpl.
  apply IH. intros k' Hk'. apply Hcols. now right.
Qed.

(** X12. When the root selector of an [all] group matches no element,
    every array of the group is empty, and an output field that refers to
    the group discards the action, or is assigned the empty object when it
    is optional. *)
Theorem all_group_without_match_is_empty (doc : Elem) (baseURI : string)
    (input : JsObject InputGroup) (found : Found) (context : JsObject Value)
    (action : string) (payload : JsObject Value) (field : OutputField)
    (src : string) (group : InputGroup) (fieldDefs : JsObject SelectorDef) :
  List.NoDup (obj_keys input) ->
  evalInput doc baseURI input = Ok found ->
  source field = Some src ->
  truthy_string (Some src) = true ->
  obj_lookup src input = Some group ->
  first group = None ->
  all group = Some fieldDefs ->
  querySelectorAll doc src = Ok (Some []) ->
  (forall k, In k (obj_keys fieldDefs) ->
     found_read found src k = Ok (VArr []))
  /\ assembleField input found context action payload field
     = Ok (if optional field
           then Assigned (obj_set (key field) (VObj []) payload)
           else NextAction).
Proof.
  intros Hnd Hev Hsource Htruthy Hgroup Hfirst Hall Hroots.
  destruct (evalInput_lookup doc baseURI input found src group Hnd Hev
              (obj_lookup_In _ _ _ Hgroup)) as (m & Hm & Hl).
  unfold groupValues in Hm. rewrite Hfirst, Hall, Hroots in Hm. simpl in Hm.
  destruct (allGroupValues baseURI [] fieldDefs) as [kvs|e] eqn:Hkvs;
    simpl in Hm; [|discriminate].
  injection Hm as <-.
  destruct (allGroupValues_keys _ _ _ _ Hkvs) as [Hkeys Hvals].
  assert (Hcols : forall k, In k (obj_keys fieldDefs) ->
            found_read found src k = Ok (VArr [])).
  { intros k Hk. rewrite <- Hkeys in Hk.
    destruct (insert_all_in kvs ∅ k Hk) as (v & Hv & Hstored).
    destruct (Hvals k v Hv) as (def & vs & _ & -> & Hmap).
    simpl in Hmap. injection Hmap as <-.
    unfold found_read. now rewrite Hl, Hstored. }
  split; [exact Hcols|].
  unfold assembleField. rewrite Hsource, Htruthy. simpl default.
  rewrite Hgroup, Hfirst, Hall.
  rewrite (mergeColumn_empty found src (obj_keys fieldDefs) [] Hcols). simpl.
  now destruct (optional field).
Qed.

Lemma obj_keys_set {A} (k : string) (v : A) (obj : JsObject A) :
  (forall k', In k' (obj_keys (obj_set k v obj)) ->
     k' = k \/ In k' (obj_keys obj))
  /\ (List.NoDup (obj_keys obj) -> List.NoDup (obj_keys (obj_set k v obj))).
Proof.
  induction obj as [|[k0 w] obj [IHin IHnd]]; simpl.
  - split; [intros k' [<-|[]]; now left|].
    intros _. constructor; [intros [] | constructor].
  - destruct (String.eqb k0 k) eqn:Heq; simpl.
    + split; [intros k' [<-|Hin]; right; [now left | now right] | auto].
    + split.
      * intros k' [<-|Hin]; [right; now left|].
        destruct (IHin k' Hin) as [->|Hin']; [now left | right; now right].
      * intros Hnd. inversion Hnd as [|? ? Hnotin Hnd']; subst.
        constructor; [|auto].
        intros Hin. destruct (IHin k0 Hin) as [->|Hin']; [|contradiction].
        now rewrite String.eqb_refl in Heq.
Qed.

Lemma assembleField_keys (input : JsObject InputGroup) (found : Found)
    (context : JsObject Value) (action : string)
    (payload payload' : JsObject Value) (field : OutputField) :
  assembleField input found context action payload field
  = Ok (Assigned payload') ->
  payload' = payload
  \/ exists v, payload' = obj_set (key field) v payload.
Proof.
  unfold assembleField.
  destruct (truthy_string (source field)).
  - destruct (obj_lookup _ input) as [group|]; [|discriminate].
    destruct (first group).
    + destruct (found_read found _ (key field)) as [value|e]; simpl;
        [|discriminate].
      destruct (negb (optional field) && _); [discriminate|].
      intros [= <-]. eauto.
    + destruct (all group); [|discriminate].
      destruct (forEachM _ _ []) as [results|e]; simpl; [|discriminate].
      destruct (_ && negb (optional field)); [discriminate|].
      intros [= <-]. eauto.
  - destruct (negb (optional field) && _); intros [= <-]; eauto.
Qed.

Lemma assembleFields_keys (input : JsObject InputGroup) (found : Found)
    (context : JsObject Value) (action : string) (fields : list OutputField)
    (payload0 payload : JsObject Value) :
  assembleFields input found context action fields payload0
  = Ok (Assigned payload) ->
  List.NoDup (obj_keys payload0) ->
  List.NoDup (obj_keys payload)
  /\ forall k, In k (obj_keys payload) ->
       In k (obj_keys payload0) \/ exists f, In f fields /\ key f = k.
Proof.
  revert payload0. induction fields as [|f fields IH]; intros payload0; simpl.
  - intros [= <-] Hnd. split; [assumption | now left].
  - destruct (assembleField input found context action payload0 f)
      as [[payload1|]|e] eqn:Hf; simpl; try discriminate.
    intros Hrest Hnd.
    assert (Hstep : List.NoDup (obj_keys payload1)
                    /\ forall k, In k (obj_keys payload1) ->
                         In k (obj_keys payload0) \/ key f = k).
    { destruct (assembleField_keys _ _ _ _ _ _ _ Hf) as [->|[v ->]].
      - split; [assumption | now left].
      - destruct (obj_keys_set (key f) v payload0) as [Hin Hnd'].
        split; [now apply Hnd'|].
        intros k Hk. destruct (Hin k Hk) as [->|Hk']; [now right | now left]. }
    destruct Hstep as [Hnd1 Hin1].
    destruct (IH payload1 Hrest Hnd1) as [Hndp Hinp].
    split; [assumption|].
    intros k Hk. destruct (Hinp k Hk) as [Hk1|(f' & Hf' & Hkey)].
    + destruct (Hin1 k Hk1) as [Hk0|Hkey]; [now left|].
      right. exists f. split; [now left | assumption].
    + right. exists f'. split; [now right | assumption].
Qed.

Lemma assembleActions_shape (input : JsObject InputGroup) (found : Found)
    (context : JsObject Value) (output : JsObject OutputSchema)
    (messages0 messages : list Message.t) :
  forEachM (assembleAction input found context) output messages0
  = Ok messages ->
  exists new,
    messages = messages0 ++ new
    /\ map (fun msg => Body.action (Message.body msg)) new
       `sublist_of` obj_keys output
    /\ Forall (fun msg =>
                 exists schema,
                   In (Body.action (Message.body msg), schema) output
                   /\ assembleFields input found context
                        (Body.action (Message.body msg)) (fields schema) []
                      = Ok (Assigned (Body.payload (Message.body msg)))
                   /\ Body.ver (Message.body msg) = 4%Z
                   /\ Message.deduplicateBy msg = deduplicateBy schema) new.
Proof.
  revert messages0.
  induction output as [|[action schema] output IH]; intros messages0;
    cbn [forEachM].
  - intros [= <-]. exists []. rewrite app_nil_r.
    split; [reflexivity|]. split; constructor.
  - unfold assembleAction at 1.
    destruct (assembleFields input found context action (fields schema) [])
      as [[payload|]|e] eqn:Hfields; simpl; try discriminate.
    + intros Hrest. destruct (IH _ Hrest) as (new & -> & Hsub & Hall).
      eexists (_ :: new). rewrite <- app_assoc. split; [reflexivity|].
      split; [simpl; now apply sublist_skip|].
      constructor.
      * exists schema. simpl. split; [now left|]. now repeat split.
      * eapply Forall_impl; [exact Hall|].
        intros msg (s & Hs & Hrest'). exists s. split; [now right | exact Hrest'].
    + intros Hrest. destruct (IH _ Hrest) as (new & -> & Hsub & Hall).
      exists new. split; [reflexivity|].
      split; [simpl; now apply sublist_cons|].
      eapply Forall_impl; [exact Hall|].
      intros msg (s & Hs & Hrest'). exists s. split; [now right | exact Hrest'].
Qed.

(** X13. The messages that [extractMessages] answers with come in the
    order of the output: their actions are a subsequence of the keys of
    the output, so there is at most one message for an action.  Each
    message has [ver = 4] and the [deduplicateBy] of its schema, its
    payload has no key twice, and every key of its payload is the key of a
    field of its schema. *)
Theorem messages_follow_the_output (rules : JsObject Rule) (ctry : string)
    (doc : Elem) (query : Value) (category url : string) (r : Rule)
    (messages : list Message.t) :
  obj_lookup category rules = Some r ->
  List.NoDup (obj_keys (default [] (output r))) ->
  extractMessages rules ctry doc query category url = Ok messages ->
  map (fun msg => Body.action (Message.body msg)) messages
    `sublist_of` obj_keys (default [] (output r))
  /\ List.NoDup (map (fun msg => Body.action (Message.body msg)) messages)
  /\ forall msg, In msg messages ->
       exists schema,
         obj_lookup (Body.action (Message.body msg)) (default [] (output r))
         = Some schema
         /\ Body.ver (Message.body msg) = 4%Z
         /\ Message.deduplicateBy msg = deduplicateBy schema
         /\ List.NoDup (obj_keys (Body.payload (Message.body msg)))
         /\ forall k, In k (obj_keys (Body.payload (Message.body msg))) ->
              exists f, In f (fields schema) /\ key f = k.
Proof.
  intros Hrule Hnd Hextract. unfold extractMessages in Hextract.
  rewrite Hrule in Hextract.
  destruct (runPrune doc (preprocess r)) as [doc'|e]; simpl in Hextract;
    [|discriminate].
  destruct (evalInput doc' url (default [] (input r))) as [found|e];
    simpl in Hextract; [|discriminate].
  destruct (forEachM _ (default [] (output r)) []) as [assembled|e] eqn:Hasm;
    simpl in Hextract; [|discriminate].
  injection Hextract as <-.
  destruct (assembleActions_shape _ _ _ _ _ _ Hasm) as (new & -> & Hsub & Hall).
  simpl in *.
  assert (Hsubf : map (fun msg => Body.action (Message.body msg))
                    (filterRedundant (default [] (output r)) new)
                  `sublist_of` obj_keys (default [] (output r))).
  { etransitivity; [|exact Hsub].
    apply map_sublist, List_filter_sublist. }
  split; [exact Hsubf|]. split.
  - apply NoDup_ListNoDup.
    apply (sublist_NoDup _ (obj_keys (default [] (output r))));
      [now apply NoDup_ListNoDup | exact Hsubf].
  - intros msg Hmsg. unfold filterRedundant in Hmsg.
    apply filter_In in Hmsg. destruct Hmsg as [Hmsg _].
    rewrite List.Forall_forall in Hall.
    destruct (Hall msg Hmsg) as (schema & Hschema & Hfields & Hver & Hdedup).
    exists schema. split; [now apply In_obj_lookup|].
    split; [exact Hver|]. split; [exact Hdedup|].
    destruct (assembleFields_keys _ _ _ _ _ _ _ Hfields) as [Hndp Hkeys];
      [constructor|].
    split; [exact Hndp|].
    intros k Hk. destruct (Hkeys k Hk) as [[]|Hf]. exact Hf.
Qed.

(** X14. Filtering is idempotent: the redundancy filter drops nothing
    from what it has answered with. *)
Theorem redundancy_filter_idempotent (output : JsObject OutputSchema)
    (messages : list Message.t) :
  filterRedundant output (filterRedundant output messages)
  = filterRedundant output messages.
Proof.
  unfold filterRedundant at 1. apply filter_all_true.
  intros msg Hmsg.
  assert (Hkept := Hmsg). unfold filterRedundant in Hkept.
  apply filter_In in Hkept. destruct Hkept as [_ Hnot].
  apply negb_true_iff in Hnot. apply negb_true_iff.
  destruct (isRedundant output (filterRedundant output messages) msg) eqn:Hred;
    [|reflexivity].
  apply isRedundant_spec in Hred. destruct Hred as (a & x & Ha & Hx & Heq).
  assert (Hred' : isRedundant output messages msg = true).
  { apply isRedundant_spec. exists a, x. split; [assumption|].
    split; [|assumption]. unfold filterRedundant in Hx.
    now apply filter_In in Hx. }
  congruence.
Qed.

End AssemblerFacts.

(** ** Job entry point *)

Section JobFacts.

Context {Elem Store : Type} `{DomOps : Dom Elem} `{EnvOps : Env}
        `{Collab : Collaborators Elem Store}.

(** X16. [runJob] throws only what one of its collaborators threw: the
    suspicion check (then nothing has been called), [add] (then the call
    of [add] is the only call: no fetch and no [delete]), or the fetch or
    the HTML parser (then the last thing it has done is to call [delete]
    for the fingerprint, and nothing has been extracted). *)
Theorem job_throws_only_what_a_collaborator_threw (job : JobArgs)
    (w w' : World Store) (e : JsError) :
  runJob job w = (Throw e, w') ->
  let fingerprint := doublefetchQueryHash (query job) (category job) in
  (checkSuspiciousQuery (query job) = Throw e /\ w' = w)
  \/ (exists store,
        hashesAdd fingerprint timezoneAgnosticDailyExpireAt (persistedHashes w)
        = (Throw e, store)
        /\ w' = mkWorld store
                  (events w
                   ++ [HashAdd fingerprint timezoneAgnosticDailyExpireAt]))
  \/ ((anonymousHttpGet (doublefetchRequest job) true = Throw e
       \/ exists html,
            anonymousHttpGet (doublefetchRequest job) true = Ok html
            /\ parseHtml html = Throw e)
      /\ exists calls,
           events w' = events w ++ calls ++ [HashDelete fingerprint]
           /\ ~ In ExtractMessages calls).
Proof.
  job_cases job w; intros [= <- <-] || intros [= <-]; cbn [events].
  - right. right. split; [right; eauto|].
    eexists [_; _; _; _]. rewrite <- !app_assoc. split; [reflexivity|].
    intros Hin. among_calls Hin.
  - right. right. split; [now left|].
    eexists [_; _; _]. rewrite <- !app_assoc. split; [reflexivity|].
    intros Hin. among_calls Hin.
  - right. left. exists store. split; reflexivity.
  - left. split; [reflexivity|]. now destruct w.
Qed.

(** X17. When [runJob] answers, it has not called [delete], and its
    answer has a reason exactly when it has no messages; messages that it
    answers with are the messages of one call of [extractMessages] on the
    parsed document. *)
Theorem job_answer_is_empty_with_reason_or_messages (job : JobArgs)
    (w w' : World Store) (result : JobResult) :
  runJob job w = (Ok result, w') ->
  (exists calls,
     events w' = events w ++ calls
     /\ forall hash, ~ In (HashDelete hash) calls)
  /\ (messages result = [] <-> reason result <> None)
  /\ (messages result <> [] ->
      exists html doc,
        anonymousHttpGet (doublefetchRequest job) true = Ok html
        /\ parseHtml html = Ok doc
        /\ extractMessagesOf doc job = Ok (messages result)).
Proof.
  job_cases job w; try (intros [= <- <-]); try discriminate;
    cbn [events messages reason].
  - (* no content *)
    split; [|split; [split; [discriminate | reflexivity] | now intros []]].
    eexists [_; _; _; _; _]. rewrite <- !app_assoc. split; [reflexivity|].
    intros hash [H|[H|[H|[H|[H|[]]]]]]; discriminate H.
  - (* messages *)
    split; [|split; [split; [discriminate | now intros []] | eauto]].
    eexists [_; _; _; _]. rewrite <- !app_assoc. split; [reflexivity|].
    intros hash [H|[H|[H|[H|[]]]]]; discriminate H.
  - (* extraction failed *)
    split; [|split; [split; [discriminate | reflexivity] | now intros []]].
    eexists [_; _; _; _; _; _]. rewrite <- !app_assoc. split; [reflexivity|].
    intros hash [H|[H|[H|[H|[H|[H|[]]]]]]]; discriminate H.
  - (* seen *)
    split; [|split; [split; [discriminate | reflexivity] | now intros []]].
    eexists [_; _]. rewrite <- !app_assoc. split; [reflexivity|].
    intros hash [H|[H|[]]]; discriminate H.
  - (* suspicious *)
    split; [|split; [split; [discriminate | reflexivity] | now intros []]].
    eexists [_]. split; [reflexivity|].
    intros hash [H|[]]; discriminate H.
Qed.

(** X18. [runJob] fetches at most once, the request of the job, and only
    for a query that the suspicion filter accepted and whose fingerprint
    [add] has newly inserted; for a query that the filter did not accept
    it does not even call [add]. *)
Theorem job_fetches_only_accepted_fresh_queries (job : JobArgs)
    (w w' : World Store) (outcome : Result JobResult) :
  runJob job w = (outcome, w') ->
  exists calls,
    events w' = events w ++ calls
    /\ (forall request, In (HttpGet request) calls ->
          request = doublefetchRequest job
          /\ (exists why, checkSuspiciousQuery (query job) = Ok (true, why))
          /\ fst (hashesAdd (doublefetchQueryHash (query job) (category job))
                    timezoneAgnosticDailyExpireAt (persistedHashes w))
             = Ok true)
    /\ ((forall why, checkSuspiciousQuery (query job) <> Ok (true, why)) ->
        persistedHashes w' = persistedHashes w
        /\ forall hash expireAt, ~ In (HashAdd hash expireAt) calls)
    /\ length (List.filter (fun call => match call with
                                        | HttpGet _ => true
                                        | _ => false
                                        end) calls) <= 1.
Proof.
  job_cases job w; intros [= <- <-]; cbn [events persistedHashes];
    rewrite <- ?app_assoc; cbn [app].
  all: try (eexists; split; [reflexivity|]).
  all: try (exists []; split; [now rewrite app_nil_r|]).
  all: split; [|split; [|simpl; lia]].
  all: try (intros request Hin; among_calls Hin; injection Hin as <-;
            split; [reflexivity|]; split; [now exists why | reflexivity]).
  all: try (intros request Hin; now among_calls Hin).
  all: try (intros Hnot; now destruct (Hnot why)).
  all: intros _; split; [now destruct w|].
  all: intros hash expireAt Hin; now among_calls Hin.
Qed.

(** X19. A job for a category that the rules do not know is not stopped
    before the fetch: the slot is taken, the page is fetched and parsed,
    and then the job finishes with [No content found.]; the fingerprint
    stays in the store as [add] left it. *)
Theorem job_for_unknown_category_finds_no_content (job : JobArgs)
    (w : World Store) (why : string) (store : Store) (html : string)
    (doc : Elem) :
  checkSuspiciousQuery (query job) = Ok (true, why) ->
  hashesAdd (doublefetchQueryHash (query job) (category job))
    timezoneAgnosticDailyExpireAt (persistedHashes w) = (Ok true, store) ->
  anonymousHttpGet (doublefetchRequest job) true = Ok html ->
  parseHtml html = Ok doc ->
  obj_lookup (category job) getRulesSnapshot = None ->
  runJob job w
  = (Ok (mkJobResult [] (Some "No content found.")),
     mkWorld store
       (events w
        ++ [HashAdd (doublefetchQueryHash (query job) (category job))
              timezoneAgnosticDailyExpireAt;
            HttpGet (doublefetchRequest job); ParseHtml html; ExtractMessages;
            Log Debug ("No messages found for query: " ++ query job ++
                       " Reason: " ++ "No content found.")])).
Proof.
  intros Haccept Hadd Hfetch Hparse Hrules.
  unfold runJob. rewrite Haccept. cbn [fst negb].
  rewrite (persistedHashes_add_answer _ _ _ _ _ Hadd). cbn [negb].
  unfold fetchAndExtract, fetchDocument. rewrite Hfetch, Hparse.
  unfold extractMessagesOf, extractMessages. rewrite Hrules.
  unfold discard, emit. simpl. now rewrite <- !app_assoc.
Qed.

(** X20. When the extraction finds messages, [runJob] answers with them
    and without a reason, the fingerprint stays in the store as [add] left
    it, and the handler of [doublefetch-query] answers with one
    [send-message] job for each message, in the same order. *)
Theorem job_with_messages_sends_each_message (job : JobArgs)
    (w : World Store) (why : string) (store : Store) (html : string)
    (doc : Elem) (msg : Message.t) (msgs : list Message.t) :
  checkSuspiciousQuery (query job) = Ok (true, why) ->
  hashesAdd (doublefetchQueryHash (query job) (category job))
    timezoneAgnosticDailyExpireAt (persistedHashes w) = (Ok true, store) ->
  anonymousHttpGet (doublefetchRequest job) true = Ok html ->
  parseHtml html = Ok doc ->
  extractMessagesOf doc job = Ok (msg :: msgs) ->
  let w' :=
    mkWorld store
      (events w
       ++ [HashAdd (doublefetchQueryHash (query job) (category job))
             timezoneAgnosticDailyExpireAt;
           HttpGet (doublefetchRequest job); ParseHtml html; ExtractMessages])
  in
  runJob job w = (Ok (mkJobResult (msg :: msgs) None), w')
  /\ handleDoublefetchQuery job w
     = (Ok (map (fun message => ("send-message", message)) (msg :: msgs)), w').
Proof.
  intros Haccept Hadd Hfetch Hparse Hextract w'.
  assert (Hrun : runJob job w = (Ok (mkJobResult (msg :: msgs) None), w')).
  { unfold runJob. rewrite Haccept. cbn [fst negb].
    rewrite (persistedHashes_add_answer _ _ _ _ _ Hadd). cbn [negb].
    unfold fetchAndExtract, fetchDocument. rewrite Hfetch, Hparse, Hextract.
    unfold emit, w'. simpl. now rewrite <- !app_assoc. }
  split; [exact Hrun|].
  unfold handleDoublefetchQuery. now rewrite Hrun.
Qed.

End JobFacts.


(** * The further properties on the concrete page *)

Lemma runSelector_shape_witness :
  runSelector Fixture.page (Some "#foo") "bar" Fixture.pageUrl
  = Ok (VStr "Some text to extract")
  /\ findFirstMatch Fixture.page (Fixture.plainRule (Some "#foo") "bar")
       Fixture.pageUrl
     = Ok (VStr "Some text to extract").
Proof.
  assert (Hrun : runSelector Fixture.page (Some "#foo") "bar" Fixture.pageUrl
                 = Ok (VStr "Some text to extract")) by reflexivity.
  split; [exact Hrun|].
  exact (proj2 (proj2 (runSelector_answers_string_or_null Fixture.page
                         (Some "#foo") "bar" Fixture.pageUrl _ Hrun))
           (Fixture.plainRule (Some "#foo") "bar") eq_refl eq_refl eq_refl).
Defined.

Lemma transform_chains_witness :
  runTransforms (VStr "a") (Some (VArr ([Cases.padStep] ++ [Cases.trimStep])))
  = runTransforms (VStr "  x ") (Some (VArr [Cases.trimStep])).
Proof.
  exact (transform_chains_compose (VStr "a") (VStr "  x ") [Cases.padStep]
           [Cases.trimStep] eq_refl eq_refl eq_refl).
Defined.

(** With [null] in between the two are different: the concatenated chain
    goes on, the second chain alone answers [null]. *)
Example chains_differ_on_null_between :
  runTransforms (VStr "a") (Some (VArr [Cases.nullStep])) = Ok VNull
  /\ runTransforms VNull (Some (VArr [Cases.padStep])) = Ok VNull
  /\ runTransforms (VStr "a") (Some (VArr [Cases.nullStep; Cases.padStep]))
     = Ok (VStr "  x ").
Proof. repeat split. Qed.

Lemma runTransforms_outcome_witness :
  runTransforms VNull (Some (VArr [Fixture.unknownStep])) = Ok VNull
  /\ isPermanentError
       (BadPatternError "Transform definitions must be an array (of arrays).")
     = true.
Proof.
  destruct (runTransforms_outcome VNull (Some (VArr [Fixture.unknownStep])))
    as (_ & _ & Hnull).
  destruct (runTransforms_outcome (VStr "a") (Some (VStr "trim")))
    as (_ & Hperm & _).
  split; [exact (Hnull eq_refl) | exact (Hperm _ eq_refl)].
Defined.

Lemma firstMatch_without_match_witness :
  findFirstMatch Fixture.bodyNode Cases.nowhereDef Fixture.pageUrl = Ok VNull
  /\ evalField Fixture.pageUrl Cases.nowhereDef Fixture.bodyNode = Ok VNull.
Proof.
  apply (firstMatch_without_match_is_null Fixture.bodyNode Fixture.pageUrl
           Cases.nowhereDef [Fixture.missingAlternative] eq_refl).
  constructor; [|constructor]. exists VNull. split; reflexivity.
Defined.

Lemma bad_prune_rule_witness :
  exists e,
    extractMessages Cases.badPruneRules "de" Fixture.prunePage
      (VStr "some-query") "example-test" Fixture.pageUrl = Throw e
    /\ isPermanentError e = true.
Proof.
  assert (Hbefore : forEachM pruneStep [PruneRule.mk (Some "p") None]
                      Fixture.prunePage = Ok Cases.prunedOnce)
    by reflexivity.
  destruct (bad_prune_rule_raises_permanent_error Cases.badPruneRules "de"
              Fixture.prunePage Cases.prunedOnce (VStr "some-query")
              "example-test" Fixture.pageUrl Cases.badPruneRule Cases.badPrune
              [PruneRule.mk (Some "p") None] [] Cases.emptyDirective
              eq_refl eq_refl eq_refl Hbefore eq_refl eq_refl)
    as (e & Hthrow & _ & Hperm).
  exists e. now split.
Defined.

Lemma bad_input_group_witness :
  exists e,
    extractMessages Cases.badInputRules "de" Fixture.page
      (VStr "some-query") "example-test" Fixture.pageUrl = Throw e
    /\ isPermanentError e = true.
Proof.
  assert (Hbefore : forEachM (evalGroup Fixture.page Fixture.pageUrl)
                      [("body", Fixture.linkGroup)] ∅ = Ok Fixture.linkFound).
  { vm_compute. reflexivity. }
  destruct (bad_input_group_raises_permanent_error Cases.badInputRules "de"
              Fixture.page Fixture.page (VStr "some-query") "example-test"
              Fixture.pageUrl Cases.badInputRule [("body", Fixture.linkGroup)]
              [] "li" Cases.emptyGroup Fixture.linkFound
              eq_refl eq_refl eq_refl Hbefore eq_refl eq_refl)
    as (e & Hthrow & _ & Hperm).
  exists e. now split.
Defined.

Lemma unknown_source_witness :
  exists e,
    extractMessages Cases.strayRules "de" Fixture.page
      (VStr "some-query") "example-test" Fixture.pageUrl = Throw e
    /\ isPermanentError e = true.
Proof.
  assert (Hev : evalInput Fixture.page Fixture.pageUrl
                  (default [] (input Cases.strayRule)) = Ok Fixture.linkFound).
  { vm_compute. reflexivity. }
  assert (Hpayload :
            assembleFields (default [] (input Cases.strayRule))
              Fixture.linkFound
              (mkContext (VStr "some-query") Fixture.pageUrl "de")
              "stray-action" [Fixture.contextField "q" false] []
            = Ok (Assigned [("q", VStr "some-query")])) by reflexivity.
  destruct (unknown_source_raises_permanent_error Cases.strayRules "de"
              Fixture.page Fixture.page (VStr "some-query") "example-test"
              Fixture.pageUrl Cases.strayRule Fixture.linkFound [] []
              "stray-action" Cases.straySchema []
              [Fixture.contextField "q" false] [] Cases.strayField
              [("q", VStr "some-query")] "nowhere"
              eq_refl eq_refl Hev eq_refl eq_refl eq_refl Hpayload eq_refl
              eq_refl eq_refl eq_refl eq_refl)
    as (e & Hthrow & _ & Hperm).
  exists e. now split.
Defined.

Lemma extraction_errors_witness :
  isPermanentError
    (BadPatternError "Unknown transformation: thisBuiltinDoesNotExist") = true
  \/ PlatformError
       (BadPatternError "Unknown transformation: thisBuiltinDoesNotExist")
  \/ (err_name
        (BadPatternError "Unknown transformation: thisBuiltinDoesNotExist")
      = "TypeError"
      /\ exists d selector, @querySelectorAll Fixture.Node Fixture.dom d selector
                            = Ok None).
Proof.
  apply (extraction_errors_are_permanent_or_platform Fixture.unknownRules "de"
           Fixture.page (VStr "some-query") "example-test" Fixture.pageUrl).
  - intros r [= <-]. constructor; [intros [] | constructor].
  - reflexivity.
Defined.

Lemma extraction_map_entries_witness :
  is_Some (Fixture.linkFound !! "body")
  /\ ~ is_Some (Fixture.linkFound !! "li").
Proof.
  assert (Hev : evalInput Fixture.page Fixture.pageUrl Fixture.linkInput
                = Ok Fixture.linkFound).
  { vm_compute. reflexivity. }
  split.
  - apply (extraction_map_has_an_entry_per_group Fixture.page Fixture.pageUrl
             Fixture.linkInput Fixture.linkFound "body" Hev).
    now left.
  - intros Hsome.
    apply (extraction_map_has_an_entry_per_group Fixture.page Fixture.pageUrl
             Fixture.linkInput Fixture.linkFound "li" Hev) in Hsome.
    destruct Hsome as [H|[]]. discriminate H.
Defined.

Lemma first_group_without_match_witness :
  assembleField Cases.nowhereFirstInput Cases.tableFound [] "table-action" []
    Cases.optionalTable
  = Ok (Assigned [("rows", VNull)])
  /\ assembleField Cases.nowhereFirstInput Cases.tableFound [] "table-action"
       [] Cases.requiredTable
     = Ok NextAction.
Proof.
  assert (Hnd : List.NoDup (obj_keys Cases.nowhereFirstInput)).
  { constructor; [intros [] | constructor]. }
  assert (Hev : evalInput Fixture.page Fixture.pageUrl Cases.nowhereFirstInput
                = Ok Cases.tableFound).
  { vm_compute. reflexivity. }
  split.
  - exact (proj2 (first_group_without_match_has_no_field Fixture.page
                    Fixture.pageUrl Cases.nowhereFirstInput Cases.tableFound
                    [] "table-action" [] Cases.optionalTable "table"
                    Cases.nowhereFirst _ Hnd eq_refl eq_refl Hev eq_refl
                    eq_refl eq_refl eq_refl eq_refl)).
  - exact (proj2 (first_group_without_match_has_no_field Fixture.page
                    Fixture.pageUrl Cases.nowhereFirstInput Cases.tableFound
                    [] "table-action" [] Cases.requiredTable "table"
                    Cases.nowhereFirst _ Hnd eq_refl eq_refl Hev eq_refl
                    eq_refl eq_refl eq_refl eq_refl)).
Defined.

Lemma all_group_without_match_witness :
  assembleField Cases.nowhereAllInput Cases.tableAllFound [] "table-action" []
    Cases.optionalTable
  = Ok (Assigned [("rows", VObj [])])
  /\ assembleField Cases.nowhereAllInput Cases.tableAllFound [] "table-action"
       [] Cases.requiredTable
     = Ok NextAction.
Proof.
  assert (Hnd : List.NoDup (obj_keys Cases.nowhereAllInput)).
  { constructor; [intros [] | constructor]. }
  assert (Hev : evalInput Fixture.page Fixture.pageUrl Cases.nowhereAllInput
                = Ok Cases.tableAllFound).
  { vm_compute. reflexivity. }
  split.
  - exact (proj2 (all_group_without_match_is_empty Fixture.page
                    Fixture.pageUrl Cases.nowhereAllInput Cases.tableAllFound
                    [] "table-action" [] Cases.optionalTable "table"
                    Cases.nowhereAll _ Hnd Hev eq_refl eq_refl eq_refl
                    eq_refl eq_refl eq_refl)).
  - exact (proj2 (all_group_without_match_is_empty Fixture.page
                    Fixture.pageUrl Cases.nowhereAllInput Cases.tableAllFound
                    [] "table-action" [] Cases.requiredTable "table"
                    Cases.nowhereAll _ Hnd Hev eq_refl eq_refl eq_refl
                    eq_refl eq_refl eq_refl)).
Defined.

Lemma messages_follow_the_output_witness :
  map (fun msg => Body.action (Message.body msg))
    [Fixture.rellinkMessage "test-action" 1000;
     Fixture.rellinkMessage "non-redundant-test-action" 1002]
  `sublist_of` ["test-action"; "redundant-test-action";
                "non-redundant-test-action"].
Proof.
  assert (Hnd : List.NoDup ["test-action"; "redundant-test-action";
                            "non-redundant-test-action"]).
  { constructor; [intros [H|[H|[]]]; discriminate H|].
    constructor; [intros [H|[]]; discriminate H|].
    constructor; [intros [] | constructor]. }
  exact (proj1 (messages_follow_the_output Fixture.redundantRules "de"
                  Fixture.page (VStr "some-query") "example-test"
                  Fixture.pageUrl _ _ eq_refl Hnd eq_refl)).
Defined.

Lemma job_throws_witness :
  (exists calls,
     events (snd (@runJob Fixture.Node HashStore.t Fixture.dom Fixture.env
                    Cases.unparsable Fixture.job Fixture.emptyWorld))
     = events Fixture.emptyWorld ++ calls ++ [HashDelete Fixture.jobHash]
     /\ ~ In ExtractMessages calls)
  /\ (exists store,
        snd (@runJob Fixture.Node HashStore.t Fixture.dom Fixture.env
               Cases.rejectingStore Fixture.job Fixture.emptyWorld)
        = mkWorld store
            (events Fixture.emptyWorld ++ [HashAdd Fixture.jobHash 86400000])).
Proof.
  split.
  - destruct (@job_throws_only_what_a_collaborator_threw Fixture.Node
                HashStore.t Fixture.dom Fixture.env Cases.unparsable
                Fixture.job Fixture.emptyWorld
                (snd (@runJob Fixture.Node HashStore.t Fixture.dom Fixture.env
                        Cases.unparsable Fixture.job Fixture.emptyWorld))
                Fixture.networkError)
      as [[Hcheck _]|[(store & Hadd & _)|[_ Hcalls]]].
    + vm_compute. reflexivity.
    + discriminate Hcheck.
    + vm_compute in Hadd. discriminate Hadd.
    + exact Hcalls.
  - destruct (@job_throws_only_what_a_collaborator_threw Fixture.Node
                HashStore.t Fixture.dom Fixture.env Cases.rejectingStore
                Fixture.job Fixture.emptyWorld
                (snd (@runJob Fixture.Node HashStore.t Fixture.dom Fixture.env
                        Cases.rejectingStore Fixture.job Fixture.emptyWorld))
                Cases.storageError)
      as [[Hcheck _]|[(store & _ & Hworld)|[[Hfetch|(html & _ & Hparse)] _]]].
    + vm_compute. reflexivity.
    + discriminate Hcheck.
    + exists store. exact Hworld.
    + discriminate Hfetch.
    + discriminate Hparse.
Defined.

Lemma job_answer_witness :
  messages (mkJobResult [Cases.dummyMessage] None) = []
  <-> reason (mkJobResult [Cases.dummyMessage] None) <> None.
Proof.
  assert (Hrun : @runJob Fixture.Node HashStore.t Fixture.dom Fixture.env
                   Cases.working Fixture.job Fixture.emptyWorld
                 = (Ok (mkJobResult [Cases.dummyMessage] None),
                    mkWorld Cases.takenStore Cases.fetchedEvents)).
  { vm_compute. reflexivity. }
  exact (proj1 (proj2
    (@job_answer_is_empty_with_reason_or_messages Fixture.Node HashStore.t
       Fixture.dom Fixture.env Cases.working Fixture.job Fixture.emptyWorld
       _ _ Hrun))).
Defined.

Lemma job_fetches_witness :
  exists calls,
    events (snd (@runJob Fixture.Node HashStore.t Fixture.dom Fixture.env
                   Cases.working Cases.suspiciousJob Fixture.emptyWorld))
    = events Fixture.emptyWorld ++ calls
    /\ forall request, ~ In (HttpGet request) calls.
Proof.
  destruct (@job_fetches_only_accepted_fresh_queries Fixture.Node HashStore.t
              Fixture.dom Fixture.env Cases.working Cases.suspiciousJob
              Fixture.emptyWorld
              (snd (@runJob Fixture.Node HashStore.t Fixture.dom Fixture.env
                      Cases.working Cases.suspiciousJob Fixture.emptyWorld))
              (fst (@runJob Fixture.Node HashStore.t Fixture.dom Fixture.env
                      Cases.working Cases.suspiciousJob Fixture.emptyWorld)))
    as (calls & Hcalls & Hfetch & _).
  { vm_compute. reflexivity. }
  exists calls. split; [exact Hcalls|].
  intros request Hin.
  destruct (Hfetch request Hin) as (_ & [why Haccept] & _).
  discriminate Haccept.
Defined.

Lemma job_for_unknown_category_witness :
  @runJob Fixture.Node HashStore.t Fixture.dom Fixture.env Cases.withoutRules
    Fixture.job Fixture.emptyWorld
  = (Ok (mkJobResult [] (Some "No content found.")),
     mkWorld Cases.takenStore
       (Cases.fetchedEvents
        ++ [Log Debug ("No messages found for query: " ++ query Fixture.job ++
                       " Reason: " ++ "No content found.")])).
Proof.
  assert (Hadd : @hashesAdd Fixture.Node HashStore.t Cases.withoutRules
                   Fixture.jobHash 86400000
                   (persistedHashes Fixture.emptyWorld)
                 = (Ok true, Cases.takenStore)).
  { vm_compute. reflexivity. }
  exact (@job_for_unknown_category_finds_no_content Fixture.Node HashStore.t
           Fixture.dom Fixture.env Cases.withoutRules Fixture.job
           Fixture.emptyWorld "blocked" Cases.takenStore "<html>" Fixture.page
           eq_refl Hadd eq_refl eq_refl eq_refl).
Defined.

Lemma job_with_messages_witness :
  @handleDoublefetchQuery Fixture.Node HashStore.t Fixture.dom Fixture.env
    Cases.working Fixture.job Fixture.emptyWorld
  = (Ok [("send-message", Cases.dummyMessage)],
     mkWorld Cases.takenStore Cases.fetchedEvents).
Proof.
  assert (Hadd : @hashesAdd Fixture.Node HashStore.t Cases.working
                   Fixture.jobHash 86400000
                   (persistedHashes Fixture.emptyWorld)
                 = (Ok true, Cases.takenStore)).
  { vm_compute. reflexivity. }
  assert (Hextract : @extractMessagesOf Fixture.Node HashStore.t Fixture.dom
                       Fixture.env Cases.working Fixture.page Fixture.job
                     = Ok [Cases.dummyMessage]).
  { reflexivity. }
  exact (proj2
    (@job_with_messages_sends_each_message Fixture.Node HashStore.t
       Fixture.dom Fixture.env Cases.working Fixture.job Fixture.emptyWorld
       "blocked" Cases.takenStore "<html>" Fixture.page Cases.dummyMessage []
       eq_refl Hadd eq_refl eq_refl Hextract)).
Defined.
